(** * The frame loop of [FirstApp::run] (park-scene-vulkan, [first_app.cpp])

    A shallow embedding of the per-frame orchestration loop: the clock
    reading and frame time, the camera update, [beginFrame], the
    population and upload of the [GlobalUbo], the two render systems and
    [endFrame].  The loop body is written in a small state monad over the
    objects that [run] owns or reaches through references; every call to a
    collaborator is logged in a call trace, on which the ordering
    properties are stated.  Both revisions of [first_app.cpp] have the
    same [run]; they differ in the scene that the constructor loads.
    The constructors and their [load...] functions are embedded in a
    second state monad over the registry, the count of created objects
    and the position in the sequence of [rand()] results. *)

From Stdlib Require Import ZArith List Bool Lia.
From Stdlib Require String.
Import String.StringSyntax.
Import ListNotations.
Delimit Scope string_scope with string.
Bind Scope string_scope with String.string.
Local Open Scope Z_scope.

Set Implicit Arguments.

(** ** Generic list helpers *)

(** [v[i] = x] on a vector; an index outside the vector leaves it as it
    is (in C++ the access is undefined there; the loop never does it, see
    [loop_slot_in_range]). *)
Fixpoint vec_set {A : Type} (l : list A) (i : nat) (x : A) : list A :=
  match l, i with
  | [], _ => []
  | _ :: t, O => x :: t
  | h :: t, S j => h :: vec_set t j x
  end.

(** [v[i]->f()]: the element at [i] is replaced by its image. *)
Definition vec_apply {A : Type} (f : A -> A) (l : list A) (i : nat) : list A :=
  match nth_error l i with
  | Some a => vec_set l i (f a)
  | None => l
  end.

Definition zseq (n : nat) : list Z := map Z.of_nat (seq 0 n).

(** One value for each of the three calls of a frame that take the frame
    context: the update and the two render calls. *)
Definition thrice {A : Type} (a : A) : list A := [a; a; a].

(** [float], [glm::mat4], the keyboard state read through the GLFW
    window, [std::shared_ptr<LveModel>] and [LveCamera]: their
    representation plays no part in the loop. *)
Class Carriers := {
  F : Type;
  Mat4 : Type;
  Keys : Type;
  Model : Type;
  Camera : Type }.

Section FirstApp.

Context {T : Carriers}.

(** ** Data model *)

Record Vec3 := mkVec3 { x : F; y : F; z : F }.

Record TransformComponent := mkTransform {
  translation : Vec3;
  scale : Vec3;
  rotation : Vec3 }.

Definition id_t := Z.

(** [LveGameObject]: the members that [first_app.cpp] reads or writes
    ([getId()], [transform], [color], [model], and the point light
    component set by [makePointLight(intensity)]). *)
Record LveGameObject := mkGameObject {
  getId : id_t;
  transform : TransformComponent;
  color : Vec3;
  model : option Model;
  pointLight : option F }.

(** Modelled from the spec: the declaration of [LveGameObject::Map] is
    not in src.  Section 3 describes the Scene Registry as "an
    ordered-by-insertion mapping from identifier to Entity" whose
    "iteration order is insertion order": an association list kept in
    insertion order, iterated from its head. *)
Definition Map := list (id_t * LveGameObject).

Definition contains (m : Map) (k : id_t) : bool :=
  existsb (fun kv => Z.eqb (fst kv) k) m.

(** [gameObjects.emplace(id, obj)]: inserts unless the key is present. *)
Definition emplace (m : Map) (k : id_t) (o : LveGameObject) : Map :=
  if contains m k then m else m ++ [(k, o)].

Definition emplace_all (m : Map) (kvs : list (id_t * LveGameObject)) : Map :=
  fold_left (fun acc kv => emplace acc (fst kv) (snd kv)) kvs m.

(** One light descriptor of the Shared State Block. *)
Record PointLight := mkPointLight {
  position : Vec3;
  lightColor : Vec3;
  lightIntensity : F }.

(** [GlobalUbo]: [projection], [view] and [inverseView] are assigned in
    [run]; the light array and its count are the "mutable slot for
    subsystem-computed data" of section 3. *)
Record GlobalUbo := mkUbo {
  projection : Mat4;
  view : Mat4;
  inverseView : Mat4;
  pointLights : list PointLight;
  numLights : Z }.

Definition CommandBuffer := Z.

(** [FrameInfo], with the six members of the initialiser in [run].  The
    members [camera] and [gameObjects] are references in the program;
    the record holds what they refer to at the time of the call it is
    passed to (see [deref]). *)
Record FrameInfo := mkFrameInfo {
  frameIndex : Z;
  frameTime : F;
  commandBuffer : CommandBuffer;
  camera : Camera;
  globalDescriptorSet : Z;
  gameObjects : Map }.

(** ** Collaborators outside this file *)

Class Externals := mkExternals {
  (** [std::chrono::duration<float, seconds::period>(d).count()] of a
      clock difference [d], given in ticks. *)
  toSeconds : Z -> F;
  (** [KeyboardMovementController::moveInPlaneXZ(window, dt, object)] *)
  moveInPlaneXZ : Keys -> F -> LveGameObject -> LveGameObject;
  (** [LveCamera] *)
  camera_init : Camera;
  setViewYXZ : Vec3 -> Vec3 -> Camera -> Camera;
  setPerspectiveProjection : F -> F -> F -> F -> Camera -> Camera;
  getProjection : Camera -> Mat4;
  getView : Camera -> Mat4;
  getInverseView : Camera -> Mat4;
  (** the result of [LveGameObject::createGameObject()] in [run] *)
  createGameObject : LveGameObject;
  (** the value of [GlobalUbo ubo{}] *)
  ubo_init : GlobalUbo;
  (** literals: [-2.5f], [glm::radians(50.f)], [0.1f], [100.f] *)
  lit_minus_2_5 : F;
  radians_50 : F;
  lit_0_1 : F;
  lit_100 : F;
  (** [LveSwapChain::MAX_FRAMES_IN_FLIGHT] and [MAX_LIGHTS]; their
      declarations are not in src. *)
  MAX_FRAMES_IN_FLIGHT : Z;
  MAX_LIGHTS : nat }.

Context {X : Externals}.

(** ** The presentation collaborator *)

(** Modelled from the spec: [LveRenderer] is not in src.  Sections 4.1
    and 6: the frame slot index is a cyclic counter modulo N, read with
    [getFrameIndex]; [beginFrame] yields a command buffer or an absent
    value ("frame skipped, try next iteration"); the counter advances
    when a begun frame is released by [endFrame], so that a skipped
    iteration consumes no slot and the first frame uses slot 0
    (section 8: the slot sequence is F mod N). *)
Record LveRenderer := mkRenderer {
  currentFrameIndex : Z;
  isFrameStarted : bool }.

Definition renderer_init : LveRenderer := mkRenderer 0 false.

Definition beginFrame (available : bool) (r : LveRenderer)
  : option CommandBuffer * LveRenderer :=
  if available
  then (Some (currentFrameIndex r), mkRenderer (currentFrameIndex r) true)
  else (None, r).

Definition getFrameIndex (r : LveRenderer) : Z := currentFrameIndex r.

Definition endFrame (r : LveRenderer) : LveRenderer :=
  mkRenderer ((currentFrameIndex r + 1) mod MAX_FRAMES_IN_FLIGHT) false.

(** Modelled from the spec: [LveBuffer] is not in src.  Section 6: a
    CPU-visible upload buffer that "exposes write(bytes) and flush()";
    [written] is the mapped memory, [visible] what the device sees
    after the last flush. *)
Record LveBuffer := mkBuffer {
  written : option GlobalUbo;
  visible : option GlobalUbo }.

Definition buffer_init : LveBuffer := mkBuffer None None.
Definition writeToBuffer (u : GlobalUbo) (b : LveBuffer) : LveBuffer :=
  mkBuffer (Some u) (visible b).
Definition flush (b : LveBuffer) : LveBuffer :=
  mkBuffer (written b) (written b).

(** ** The render systems *)

Inductive System := SimpleRenderSystem | PointLightSystem.

Inductive Draw :=
| DrawModel (id : id_t)
| DrawLight (id : id_t).

(** Modelled from the spec: [PointLightSystem::update] is not in src.
    Section 4.3: the lighting subsystem writes the dynamic lighting
    portion of the block "by scanning the Scene Registry for entities
    carrying a light attribute, in registry iteration order, up to a
    fixed maximum count; exceeding the maximum is a silent
    truncation".  The registry, reached through [frameInfo], is read
    and handed back as it is (section 5). *)
Definition light_of (o : LveGameObject) : list PointLight :=
  match pointLight o with
  | Some i => [mkPointLight (translation (transform o)) (color o) i]
  | None => []
  end.

Definition scene_lights (m : Map) : list PointLight :=
  flat_map (fun kv => light_of (snd kv)) m.

Definition pointLightSystem_update (fi : FrameInfo) (ubo : GlobalUbo)
  : Map * GlobalUbo :=
  let ls := firstn MAX_LIGHTS (scene_lights (gameObjects fi)) in
  (gameObjects fi,
   mkUbo (projection ubo) (view ubo) (inverseView ubo)
         ls (Z.of_nat (length ls))).

(** Modelled from the spec: the render calls of the two systems are not
    in src.  Section 4.4: [render(FrameContext)] "issues GPU draw
    commands against entities it is interested in (filtered by
    presence/absence of a light attribute, or by mesh presence)" and
    its side effects are confined to the command sequence. *)
Definition simpleRenderSystem_renderGameObjects (fi : FrameInfo)
  : Map * list Draw :=
  (gameObjects fi,
   flat_map (fun kv => match model (snd kv) with
                       | Some _ => [DrawModel (fst kv)]
                       | None => []
                       end) (gameObjects fi)).

Definition pointLightSystem_render (fi : FrameInfo) : Map * list Draw :=
  (gameObjects fi,
   flat_map (fun kv => match pointLight (snd kv) with
                       | Some _ => [DrawLight (fst kv)]
                       | None => []
                       end) (gameObjects fi)).

(** ** Call trace *)

Inductive Event :=
| EvPollEvents
| EvClockNow (t : Z)
| EvMoveInPlaneXZ (dt : F)
| EvSetViewYXZ
| EvGetAspectRatio
| EvSetPerspectiveProjection (aspect : F)
| EvBeginFrame (cb : option CommandBuffer)
| EvGetFrameIndex (i : Z)
| EvNewGlobalUbo
| EvUpdate (s : System) (fi : FrameInfo)
| EvWriteToBuffer (slot : Z) (u : GlobalUbo)
| EvFlush (slot : Z)
| EvBeginSwapChainRenderPass
| EvRender (s : System) (fi : FrameInfo)
| EvEndSwapChainRenderPass
| EvEndFrame
| EvDeviceWaitIdle.

(** ** State of [run] *)

Record World := mkWorld {
  app_gameObjects : Map;          (* FirstApp::gameObjects *)
  lveRenderer : LveRenderer;      (* FirstApp::lveRenderer *)
  uboBuffers : list LveBuffer;    (* local of run *)
  run_camera : Camera;            (* local of run *)
  viewerObject : LveGameObject;   (* local of run *)
  currentTime : Z;                (* local of run *)
  recorded : list Draw;           (* commands recorded so far *)
  trace : list Event }.

(** What one loop iteration reads from outside: the clock, the
    keyboard, the swap chain's aspect ratio, and whether [beginFrame]
    can hand out a command buffer. *)
Record Input := mkInput {
  in_now : Z;
  in_keys : Keys;
  in_aspect : F;
  in_frame : bool }.

Definition M (A : Type) : Type := World -> A * World.
Definition ret {A} (a : A) : M A := fun w => (a, w).
Definition bind {A B} (c : M A) (k : A -> M B) : M B :=
  fun w => let (a, w') := c w in k a w'.
Definition exec {A} (c : M A) (w : World) : World := snd (c w).

Notation "v <- c1 ;; c2" := (bind c1 (fun v => c2))
  (at level 61, c1 at next level, right associativity).
Notation "c1 ;; c2" := (bind c1 (fun _ => c2))
  (at level 61, right associativity).

Definition emit (e : Event) : M unit := fun w =>
  (tt, mkWorld (app_gameObjects w) (lveRenderer w) (uboBuffers w)
               (run_camera w) (viewerObject w) (currentTime w)
               (recorded w) (trace w ++ [e])).

Definition get_gameObjects : M Map := fun w => (app_gameObjects w, w).
Definition set_gameObjects (m : Map) : M unit := fun w =>
  (tt, mkWorld m (lveRenderer w) (uboBuffers w) (run_camera w)
               (viewerObject w) (currentTime w) (recorded w) (trace w)).

Definition get_renderer : M LveRenderer := fun w => (lveRenderer w, w).
Definition set_renderer (r : LveRenderer) : M unit := fun w =>
  (tt, mkWorld (app_gameObjects w) r (uboBuffers w) (run_camera w)
               (viewerObject w) (currentTime w) (recorded w) (trace w)).

Definition get_uboBuffers : M (list LveBuffer) := fun w => (uboBuffers w, w).
Definition set_uboBuffers (bs : list LveBuffer) : M unit := fun w =>
  (tt, mkWorld (app_gameObjects w) (lveRenderer w) bs (run_camera w)
               (viewerObject w) (currentTime w) (recorded w) (trace w)).

Definition get_camera : M Camera := fun w => (run_camera w, w).
Definition set_camera (c : Camera) : M unit := fun w =>
  (tt, mkWorld (app_gameObjects w) (lveRenderer w) (uboBuffers w) c
               (viewerObject w) (currentTime w) (recorded w) (trace w)).

Definition get_viewerObject : M LveGameObject := fun w => (viewerObject w, w).
Definition set_viewerObject (o : LveGameObject) : M unit := fun w =>
  (tt, mkWorld (app_gameObjects w) (lveRenderer w) (uboBuffers w)
               (run_camera w) o (currentTime w) (recorded w) (trace w)).

Definition get_currentTime : M Z := fun w => (currentTime w, w).
Definition set_currentTime (t : Z) : M unit := fun w =>
  (tt, mkWorld (app_gameObjects w) (lveRenderer w) (uboBuffers w)
               (run_camera w) (viewerObject w) t (recorded w) (trace w)).

Definition record_draws (ds : list Draw) : M unit := fun w =>
  (tt, mkWorld (app_gameObjects w) (lveRenderer w) (uboBuffers w)
               (run_camera w) (viewerObject w) (currentTime w)
               (recorded w ++ ds) (trace w)).

(** ** The calls made by the loop body *)

Definition glfwPollEvents : M unit := emit EvPollEvents.

(** [std::chrono::high_resolution_clock::now()] *)
Definition clock_now (t : Z) : M Z := emit (EvClockNow t) ;; ret t.

Definition cameraController_moveInPlaneXZ (keys : Keys) (dt : F) : M unit :=
  o <- get_viewerObject ;;
  set_viewerObject (moveInPlaneXZ keys dt o) ;;
  emit (EvMoveInPlaneXZ dt).

(** [camera.setViewYXZ(viewerObject.transform.translation,
    viewerObject.transform.rotation)] *)
Definition camera_setViewYXZ : M unit :=
  o <- get_viewerObject ;;
  c <- get_camera ;;
  set_camera (setViewYXZ (translation (transform o))
                           (rotation (transform o)) c) ;;
  emit EvSetViewYXZ.

Definition lveRenderer_getAspectRatio (a : F) : M F :=
  emit EvGetAspectRatio ;; ret a.

Definition camera_setPerspectiveProjection (fovy aspect near far : F)
  : M unit :=
  c <- get_camera ;;
  set_camera (setPerspectiveProjection fovy aspect near far c) ;;
  emit (EvSetPerspectiveProjection aspect).

Definition lveRenderer_beginFrame (available : bool)
  : M (option CommandBuffer) :=
  r <- get_renderer ;;
  let (cb, r') := beginFrame available r in
  set_renderer r' ;;
  emit (EvBeginFrame cb) ;;
  ret cb.

Definition lveRenderer_getFrameIndex : M Z :=
  r <- get_renderer ;;
  emit (EvGetFrameIndex (getFrameIndex r)) ;;
  ret (getFrameIndex r).

Definition lveRenderer_endFrame : M unit :=
  r <- get_renderer ;;
  set_renderer (endFrame r) ;;
  emit EvEndFrame.

(** [FrameInfo frameInfo{frameIndex, frameTime, commandBuffer, camera,
    globalDescriptorSets[frameIndex], gameObjects}]; descriptor set [i]
    was built over [uboBuffers[i]] and is identified with [i]. *)
Definition new_FrameInfo (frameIndex : Z) (frameTime : F)
  (commandBuffer : CommandBuffer) : M FrameInfo :=
  c <- get_camera ;;
  m <- get_gameObjects ;;
  ret (mkFrameInfo frameIndex frameTime commandBuffer c frameIndex m).

(** What [frameInfo] denotes at the time of a call: its reference
    members are read from the objects they alias. *)
Definition deref (fi : FrameInfo) : M FrameInfo :=
  c <- get_camera ;;
  m <- get_gameObjects ;;
  ret (mkFrameInfo (frameIndex fi) (frameTime fi) (commandBuffer fi)
                   c (globalDescriptorSet fi) m).

(** [GlobalUbo ubo{}] and the three assignments from the camera. *)
Definition new_GlobalUbo : M GlobalUbo :=
  emit EvNewGlobalUbo ;;
  c <- get_camera ;;
  let ubo := ubo_init in
  ret (mkUbo (getProjection c) (getView c) (getInverseView c)
             (pointLights ubo) (numLights ubo)).

(** [pointLightSystem.update(frameInfo, ubo)]; [ubo] is passed by
    reference, the updated block is the result. *)
Definition call_pointLightSystem_update (frameInfo : FrameInfo)
  (ubo : GlobalUbo) : M GlobalUbo :=
  fi <- deref frameInfo ;;
  emit (EvUpdate PointLightSystem fi) ;;
  let (m, ubo') := pointLightSystem_update fi ubo in
  set_gameObjects m ;;
  ret ubo'.

(** [uboBuffers[frameIndex]->writeToBuffer(&ubo)] *)
Definition uboBuffers_writeToBuffer (frameIndex : Z) (ubo : GlobalUbo)
  : M unit :=
  bs <- get_uboBuffers ;;
  set_uboBuffers (vec_apply (writeToBuffer ubo) bs (Z.to_nat frameIndex)) ;;
  emit (EvWriteToBuffer frameIndex ubo).

(** [uboBuffers[frameIndex]->flush()] *)
Definition uboBuffers_flush (frameIndex : Z) : M unit :=
  bs <- get_uboBuffers ;;
  set_uboBuffers (vec_apply flush bs (Z.to_nat frameIndex)) ;;
  emit (EvFlush frameIndex).

Definition lveRenderer_beginSwapChainRenderPass (cb : CommandBuffer)
  : M unit := emit EvBeginSwapChainRenderPass.

Definition lveRenderer_endSwapChainRenderPass (cb : CommandBuffer)
  : M unit := emit EvEndSwapChainRenderPass.

Definition call_render (s : System) (frameInfo : FrameInfo) : M unit :=
  fi <- deref frameInfo ;;
  emit (EvRender s fi) ;;
  let (m, ds) := match s with
                 | SimpleRenderSystem => simpleRenderSystem_renderGameObjects fi
                 | PointLightSystem => pointLightSystem_render fi
                 end in
  set_gameObjects m ;;
  record_draws ds.

(** ** The loop body of [FirstApp::run] *)

Definition iteration (i : Input) : M unit :=
  glfwPollEvents ;;

  newTime <- clock_now (in_now i) ;;
  currentTime <- get_currentTime ;;
  let frameTime := toSeconds (newTime - currentTime) in
  set_currentTime newTime ;;

  cameraController_moveInPlaneXZ (in_keys i) frameTime ;;
  camera_setViewYXZ ;;

  aspect <- lveRenderer_getAspectRatio (in_aspect i) ;;
  camera_setPerspectiveProjection (radians_50) aspect
                                  (lit_0_1) (lit_100) ;;

  commandBuffer <- lveRenderer_beginFrame (in_frame i) ;;
  match commandBuffer with
  | Some commandBuffer =>
      frameIndex <- lveRenderer_getFrameIndex ;;
      frameInfo <- new_FrameInfo frameIndex frameTime commandBuffer ;;

      (* update *)
      ubo <- new_GlobalUbo ;;
      ubo <- call_pointLightSystem_update frameInfo ubo ;;
      uboBuffers_writeToBuffer frameIndex ubo ;;
      uboBuffers_flush frameIndex ;;

      (* render *)
      lveRenderer_beginSwapChainRenderPass commandBuffer ;;

      (* order here matters *)
      call_render SimpleRenderSystem frameInfo ;;
      call_render PointLightSystem frameInfo ;;

      lveRenderer_endSwapChainRenderPass commandBuffer ;;
      lveRenderer_endFrame
  | None => ret tt
  end.

(** [while (!lveWindow.shouldClose()) { ... }]: one element of [ins] for
    each time the window reported that it should not close. *)
Fixpoint loop (ins : list Input) : M unit :=
  match ins with
  | [] => ret tt
  | i :: rest => iteration i ;; loop rest
  end.

(** The locals of [run] before the loop.  [app] and [r] are the members
    [gameObjects] and [lveRenderer] of the application; [t0] is the clock
    reading taken just before the loop. *)
Definition run_setup (app : Map) (r : LveRenderer) (t0 : Z) : World :=
  let viewer := createGameObject in
  let tr := transform viewer in
  let tl := translation tr in
  mkWorld app r
          (repeat buffer_init (Z.to_nat MAX_FRAMES_IN_FLIGHT))
          (camera_init)
          (mkGameObject (getId viewer)
             (mkTransform (mkVec3 (x tl) (y tl) (lit_minus_2_5))
                          (scale tr) (rotation tr))
             (color viewer) (model viewer) (pointLight viewer))
          t0 [] [EvClockNow t0].

Definition run (app : Map) (r : LveRenderer) (t0 : Z) (ins : list Input)
  : World :=
  exec (loop ins ;; emit EvDeviceWaitIdle) (run_setup app r t0).

(** ** Projections of the call trace *)

Definition renders (t : list Event) : list System :=
  flat_map (fun e => match e with EvRender s _ => [s] | _ => [] end) t.

Definition updates (t : list Event) : list System :=
  flat_map (fun e => match e with EvUpdate s _ => [s] | _ => [] end) t.

Definition uploads (t : list Event) : list (Z * GlobalUbo) :=
  flat_map (fun e => match e with
                     | EvWriteToBuffer k u => [(k, u)]
                     | _ => []
                     end) t.

Definition slots (t : list Event) : list Z :=
  flat_map (fun e => match e with EvGetFrameIndex k => [k] | _ => [] end) t.

Definition observed (t : list Event) : list Map :=
  flat_map (fun e => match e with
                     | EvUpdate _ fi | EvRender _ fi => [gameObjects fi]
                     | _ => []
                     end) t.

Definition frameTimes (t : list Event) : list F :=
  flat_map (fun e => match e with EvMoveInPlaneXZ dt => [dt] | _ => [] end) t.

(** ** What one iteration computes *)

Definition dt_of (i : Input) (w : World) : F :=
  toSeconds (in_now i - currentTime w).

Definition viewer_of (i : Input) (w : World) : LveGameObject :=
  moveInPlaneXZ (in_keys i) (dt_of i w) (viewerObject w).

Definition camera_of (i : Input) (w : World) : Camera :=
  let o := viewer_of i w in
  setPerspectiveProjection (radians_50) (in_aspect i)
    (lit_0_1) (lit_100)
    (setViewYXZ (translation (transform o)) (rotation (transform o))
       (run_camera w)).

Definition frameInfo_of (i : Input) (w : World) : FrameInfo :=
  let k := currentFrameIndex (lveRenderer w) in
  mkFrameInfo k (dt_of i w) k (camera_of i w) k (app_gameObjects w).

Definition ubo_of (i : Input) (w : World) : GlobalUbo :=
  let c := camera_of i w in
  let ls := firstn MAX_LIGHTS (scene_lights (app_gameObjects w)) in
  mkUbo (getProjection c) (getView c) (getInverseView c)
        ls (Z.of_nat (length ls)).

Definition prelude_events (i : Input) (w : World) : list Event :=
  [EvPollEvents; EvClockNow (in_now i); EvMoveInPlaneXZ (dt_of i w);
   EvSetViewYXZ; EvGetAspectRatio; EvSetPerspectiveProjection (in_aspect i)].

Definition frame_events (i : Input) (w : World) : list Event :=
  let k := currentFrameIndex (lveRenderer w) in
  let fi := frameInfo_of i w in
  [EvBeginFrame (Some k); EvGetFrameIndex k; EvNewGlobalUbo;
   EvUpdate PointLightSystem fi; EvWriteToBuffer k (ubo_of i w); EvFlush k;
   EvBeginSwapChainRenderPass;
   EvRender SimpleRenderSystem fi; EvRender PointLightSystem fi;
   EvEndSwapChainRenderPass; EvEndFrame].

(** The events that one iteration appends to the trace. *)
Definition iteration_events (i : Input) (w : World) : list Event :=
  prelude_events i w ++
  (if in_frame i then frame_events i w else [EvBeginFrame None]).

(** The render calls of a frame, in the order of the source. *)
Definition render_order : list System := [SimpleRenderSystem; PointLightSystem].

(** The number of iterations of [ins] in which [beginFrame] yields a
    command buffer. *)
Definition begun (ins : list Input) : nat := length (filter in_frame ins).

(** The clock differences of successive iterations: [newTime -
    currentTime], followed by [currentTime = newTime]. *)
Fixpoint durations (currentTime : Z) (nows : list Z) : list Z :=
  match nows with
  | [] => []
  | newTime :: rest => (newTime - currentTime) :: durations newTime rest
  end.

(** A clock that never runs backwards. *)
Fixpoint monotone (t : Z) (nows : list Z) : bool :=
  match nows with
  | [] => true
  | n :: rest => (t <=? n) && monotone n rest
  end.

(** "The delta may be 0 only on the very first frame." *)
Definition zero_only_on_first (t0 : Z) (nows : list Z) : Prop :=
  forall k, nth_error (durations t0 nows) k = Some 0 -> k = 0%nat.

(** The frame contexts handed to the systems. *)
Definition contexts (t : list Event) : list FrameInfo :=
  flat_map (fun e => match e with
                     | EvUpdate _ fi | EvRender _ fi => [fi]
                     | _ => []
                     end) t.

(** "The delta is >= 0." *)
Definition never_negative (t0 : Z) (nows : list Z) : Prop :=
  Forall (fun d => 0 <= d) (durations t0 nows).

(** The frame times that the system calls of a run receive when the
    iterations [ins] have the clock differences [ds]: the three calls of
    a begun frame get the conversion of that iteration's difference, a
    skipped iteration hands out nothing. *)
Definition handed (ins : list Input) (ds : list Z) : list F :=
  flat_map (fun id => if in_frame (fst id)
                      then thrice (toSeconds (snd id))
                      else [])
           (combine ins ds).

(** The viewer object and clock after the iterations [ins]. *)
Definition viewer_path (ins : list Input) (o : LveGameObject) (t : Z)
  : LveGameObject * Z :=
  fold_left (fun ot i =>
               (moveInPlaneXZ (in_keys i) (toSeconds (in_now i - snd ot))
                              (fst ot),
                in_now i))
            ins (o, t).

End FirstApp.

(** ** A small instance, for the examples

    Floats are fixed-point thousandths, a matrix is one number, a camera
    is its three matrices; two frames in flight and at most two lights. *)

Definition demo_carriers : Carriers :=
  {| F := Z; Mat4 := Z; Keys := Z; Model := unit; Camera := Z * Z * Z |}.

Definition demo_vec (a b c : Z) : @Vec3 demo_carriers := mkVec3 (T := demo_carriers) a b c.

Definition demo_object (id : Z) (pos : @Vec3 demo_carriers)
  (m : option unit) (l : option Z) : @LveGameObject demo_carriers :=
  mkGameObject (T := demo_carriers) id
    (mkTransform pos (demo_vec 1000 1000 1000) (demo_vec 0 0 0))
    (demo_vec 1000 500 0) m l.

Definition demo_move (k dt : Z) (o : @LveGameObject demo_carriers)
  : @LveGameObject demo_carriers :=
  let tr := transform o in
  let tl := translation tr in
  mkGameObject (T := demo_carriers) (getId o)
    (mkTransform (demo_vec (x tl + k * dt) (y tl) (z tl))
                 (scale tr) (rotation tr))
    (color o) (model o) (pointLight o).

Definition demo : @Externals demo_carriers :=
  mkExternals (T := demo_carriers)
    (fun d => d)
    demo_move
    (0, 0, 0)
    (fun tl rot c => (fst (fst c), x tl + y rot, - (x tl + y rot)))
    (fun fovy aspect near far c => (fovy * aspect, snd (fst c), snd c))
    (fun c => fst (fst c))
    (fun c => snd (fst c))
    (fun c => snd c)
    (demo_object 100 (demo_vec 0 0 0) None None)
    (mkUbo (T := demo_carriers) 1 1 1 [] 0)
    (-2500) 873 100 100000
    2 2%nat.

(** A floor and three lamps, in this order of insertion. *)
Definition demo_scene : @Map demo_carriers :=
  [ (0, demo_object 0 (demo_vec 0 500 0) (Some tt) None);
    (1, demo_object 1 (demo_vec (-2000) (-30000) (-5000)) None (Some 350200));
    (2, demo_object 2 (demo_vec 1000 0 0) None (Some 5200));
    (3, demo_object 3 (demo_vec 2000 0 0) None (Some 5200)) ].

Definition demo_world : @World demo_carriers :=
  run_setup (X := demo) demo_scene renderer_init 0.

Definition demo_frame (now : Z) : @Input demo_carriers :=
  mkInput (T := demo_carriers) now 1 1779 true.

Definition demo_skip (now : Z) : @Input demo_carriers :=
  mkInput (T := demo_carriers) now 1 1779 false.

(** Six iterations, the third one without a command buffer. *)
Definition demo_inputs : list (@Input demo_carriers) :=
  [demo_frame 16; demo_frame 33; demo_skip 50; demo_frame 66;
   demo_frame 83; demo_frame 100].

(** Two iterations whose clock readings coincide. *)
Definition demo_stall : list (@Input demo_carriers) :=
  [demo_frame 1; demo_frame 1].

(** Two iterations between which the clock is set back. *)
Definition demo_backwards : list (@Input demo_carriers) :=
  [demo_frame 5; demo_frame 3].

(** * The order of calls in a frame *)

Section Protocol.

Context {T : Carriers}.

(** Where the loop stands between two calls: outside a frame; in a frame
    before the block is written; after the write; after the flush; in
    the render pass; after the pass; after the final wait. *)
Inductive Phase :=
| Idle
| FrameBegun
| BlockWritten
| BlockFlushed
| InPass
| PassEnded
| Stopped.

(** The calls that each phase admits. *)
Definition phase_step (p : Phase) (e : Event) : option Phase :=
  match p, e with
  | Idle, (EvPollEvents | EvClockNow _ | EvMoveInPlaneXZ _ | EvSetViewYXZ
           | EvGetAspectRatio | EvSetPerspectiveProjection _
           | EvBeginFrame None) => Some Idle
  | Idle, EvBeginFrame (Some _) => Some FrameBegun
  | Idle, EvDeviceWaitIdle => Some Stopped
  | FrameBegun, (EvGetFrameIndex _ | EvNewGlobalUbo | EvUpdate _ _) =>
      Some FrameBegun
  | FrameBegun, EvWriteToBuffer _ _ => Some BlockWritten
  | BlockWritten, EvFlush _ => Some BlockFlushed
  | BlockFlushed, EvBeginSwapChainRenderPass => Some InPass
  | InPass, EvRender _ _ => Some InPass
  | InPass, EvEndSwapChainRenderPass => Some PassEnded
  | PassEnded, EvEndFrame => Some Idle
  | _, _ => None
  end.

Fixpoint phase_after (p : Phase) (t : list Event) : option Phase :=
  match t with
  | [] => Some p
  | e :: rest =>
      match phase_step p e with
      | Some q => phase_after q rest
      | None => None
      end
  end.

Definition zsum (l : list Z) : Z := fold_right Z.add 0 l.

(** A buffer whose written content has been flushed. *)
Definition flushed (b : LveBuffer) : Prop := visible b = written b.

End Protocol.

(** * Scene construction: the constructor and the [load...] functions *)

Section SceneBuilding.

Context {T : Carriers}.

(** What the scene construction calls outside [first_app.cpp]. *)
Class SceneExternals := mkSceneExternals {
  (** [LveModel::createModelFromFile(lveDevice, path)] *)
  createModelFromFile : String.string -> Model;
  (** a [float] literal, as it is spelled in the source *)
  flit : String.string -> F;
  (** [int] to [float], and [+], [*], [/] on [float] *)
  of_int : Z -> F;
  fadd : F -> F -> F;
  fmul : F -> F -> F;
  fdiv : F -> F -> F;
  (** [RAND_MAX] *)
  RAND_MAX : Z;
  (** the results of the successive calls of [std::rand()] that follow
      [std::srand(std::time(nullptr))] *)
  rand_seq : nat -> Z;
  (** Modelled from the spec: [LveGameObject::createGameObject] and
      [LveGameObject::makePointLight] are not in src.  Section 3: an
      entity's identifier is "assigned at creation"; [id_nth n] is the
      identifier of the n-th object created by the program and [blank]
      the other members of a newly created object. *)
  id_nth : nat -> id_t;
  blank : LveGameObject }.

Context {S : SceneExternals}.

(** What the constructor works on: the member [gameObjects], the number
    of objects created so far, and the number of [rand()] calls since
    the seeding. *)
Record Builder := mkBuilder {
  b_gameObjects : Map;
  b_created : nat;
  b_rand : nat }.

Definition B (A : Type) : Type := Builder -> A * Builder.
Definition bret {A} (a : A) : B A := fun b => (a, b).
Definition bbind {A C} (c : B A) (k : A -> B C) : B C :=
  fun b => let (a, b') := c b in k a b'.
Definition build {A} (c : B A) (b : Builder) : Builder := snd (c b).

Notation "v <- c1 ;; c2" := (bbind c1 (fun v => c2))
  (at level 61, c1 at next level, right associativity).
Notation "c1 ;; c2" := (bbind c1 (fun _ => c2))
  (at level 61, right associativity).

Definition LveGameObject_createGameObject : B LveGameObject := fun b =>
  (mkGameObject (id_nth (b_created b)) (transform blank) (color blank)
                (model blank) (pointLight blank),
   mkBuilder (b_gameObjects b) (Datatypes.S (b_created b)) (b_rand b)).

(** [makePointLight(intensity)]: a new object carrying a light of this
    intensity.  Its colour and scale are assigned by the caller. *)
Definition LveGameObject_makePointLight (intensity : F) : B LveGameObject :=
  o <- LveGameObject_createGameObject ;;
  bret (mkGameObject (getId o) (transform o) (color o) (model o)
                     (Some intensity)).

(** [gameObjects.emplace(id, std::move(obj))] *)
Definition gameObjects_emplace (k : id_t) (o : LveGameObject) : B unit :=
  fun b => (tt, mkBuilder (emplace (b_gameObjects b) k o)
                          (b_created b) (b_rand b)).

Definition std_srand : B unit := fun b =>
  (tt, mkBuilder (b_gameObjects b) (b_created b) 0).

Definition std_rand : B Z := fun b =>
  (rand_seq (b_rand b),
   mkBuilder (b_gameObjects b) (b_created b) (Datatypes.S (b_rand b))).

(** Assignments to the members of an object. *)
Definition set_model (m : Model) (o : LveGameObject) : LveGameObject :=
  mkGameObject (getId o) (transform o) (color o) (Some m) (pointLight o).

Definition set_translation (v : Vec3) (o : LveGameObject) : LveGameObject :=
  mkGameObject (getId o)
    (mkTransform v (scale (transform o)) (rotation (transform o)))
    (color o) (model o) (pointLight o).

Definition set_scale (v : Vec3) (o : LveGameObject) : LveGameObject :=
  mkGameObject (getId o)
    (mkTransform (translation (transform o)) v (rotation (transform o)))
    (color o) (model o) (pointLight o).

Definition set_rotation (v : Vec3) (o : LveGameObject) : LveGameObject :=
  mkGameObject (getId o)
    (mkTransform (translation (transform o)) (scale (transform o)) v)
    (color o) (model o) (pointLight o).

Definition set_color (v : Vec3) (o : LveGameObject) : LveGameObject :=
  mkGameObject (getId o) (transform o) v (model o) (pointLight o).

(** [{a, b, c}] with three literals *)
Definition vec3 (a b c : String.string) : Vec3 :=
  mkVec3 (flit a) (flit b) (flit c).

Fixpoint for_each {A : Type} (l : list A) (body : A -> B unit) : B unit :=
  match l with
  | [] => bret tt
  | a :: rest => body a ;; for_each rest body
  end.

(** [for (int i = lo; i <= hi; i++)] *)
Definition for_le (lo hi : Z) (body : Z -> B unit) : B unit :=
  for_each (map (fun n => lo + n) (zseq (Z.to_nat (hi - lo + 1)))) body.

(** [for (int i = lo; i < hi; ++i)] *)
Definition for_lt (lo hi : Z) (body : Z -> B unit) : B unit :=
  for_each (map (fun n => lo + n) (zseq (Z.to_nat (hi - lo)))) body.

(** [FirstApp::loadSolarLight], the same in both listings. *)
Definition loadSolarLight : B unit :=
  orangeLight <- LveGameObject_makePointLight (flit "350.2f") ;;
  let orangeLight := set_color (vec3 "1.f" "0.5f" "0.f") orangeLight in
  let orangeLight :=
    set_translation (vec3 "-2.f" "-30.f" "-5.f") orangeLight in
  let orangeLight := set_scale (vec3 "1.f" "1.f" "1.f") orangeLight in
  gameObjects_emplace (getId orangeLight) orangeLight.

(** The light descriptor of the object made by [loadSolarLight]. *)
Definition solar_light : PointLight :=
  mkPointLight (vec3 "-2.f" "-30.f" "-5.f") (vec3 "1.f" "0.5f" "0.f")
               (flit "350.2f").

(** [-10.f + static_cast<float>(rand()) / (static_cast<float>(RAND_MAX /
    (20.f)))] and its like. *)
Definition rand_float (base : String.string) (r : Z) (span : String.string)
  : F :=
  fadd (flit base) (fdiv (of_int r) (fdiv (of_int RAND_MAX) (flit span))).

(** [8 + std::rand() % 8] on the first value of the sequence; [%] on
    [int] truncates towards zero. *)
Definition numPlants_of (r : Z) : Z := 8 + Z.rem r 8.

(** The first listing of [first_app.cpp]. *)

Definition loadGameObjects1 : B unit :=
  let lveModel := createModelFromFile "models/custom_vase.obj" in

  let lveModel := createModelFromFile "models/quad.obj" in
  floor <- LveGameObject_createGameObject ;;
  let floor := set_model lveModel floor in
  let floor := set_translation (vec3 "0.f" ".5f" "0.f") floor in
  let floor := set_scale (vec3 "6.f" "1.f" "6.f") floor in
  gameObjects_emplace (getId floor) floor ;;

  let lveModel := createModelFromFile "models/simple_model.obj" in
  characterlowpoly2 <- LveGameObject_createGameObject ;;
  let characterlowpoly2 := set_model lveModel characterlowpoly2 in
  let characterlowpoly2 :=
    set_translation (vec3 "1.f" "-.2f" "0.f") characterlowpoly2 in
  let characterlowpoly2 :=
    set_scale (vec3 ".2f" ".2f" ".2f") characterlowpoly2 in
  gameObjects_emplace (getId characterlowpoly2) characterlowpoly2.

Definition loadTreeObjects1 : B unit :=
  let lveModel := createModelFromFile "models/park/Tree/3Trees.obj" in
  tree <- LveGameObject_createGameObject ;;
  let tree := set_model lveModel tree in
  let tree := set_scale (vec3 ".1f" ".1f" ".1f") tree in
  let tree := set_translation (vec3 ".5f" ".5f" "0.f") tree in
  gameObjects_emplace (getId tree) tree.

Definition loadBenchObjects1 : B unit :=
  let lveModel := createModelFromFile "models/park/bush/bush-1.obj" in
  tree <- LveGameObject_createGameObject ;;
  let tree := set_model lveModel tree in
  let tree := set_translation (vec3 "-2.f" ".5f" "4.f") tree in
  let tree := set_scale (vec3 ".5f" ".5f" ".5f") tree in
  let tree := set_rotation (vec3 "0.f" "2.f" "0.f") tree in
  gameObjects_emplace (getId tree) tree.

(** [FirstApp::FirstApp()] of the first listing, after the descriptor
    pool. *)
Definition FirstApp1 : B unit :=
  loadGameObjects1 ;;
  loadBenchObjects1 ;;
  loadSolarLight.

(** The second listing of [first_app.cpp]. *)

Definition loadGameObjects2 : B unit :=
  let lveModel := createModelFromFile "models/quad.obj" in
  floor <- LveGameObject_createGameObject ;;
  let floor := set_model lveModel floor in
  let floor := set_translation (vec3 "0.f" ".5f" "0.f") floor in
  let floor := set_scale (vec3 "10.f" "2.f" "10.f") floor in
  gameObjects_emplace (getId floor) floor ;;

  let lveModel := createModelFromFile "models/simple_model.obj" in
  characterlowpoly2 <- LveGameObject_createGameObject ;;
  let characterlowpoly2 := set_model lveModel characterlowpoly2 in
  let characterlowpoly2 :=
    set_translation (vec3 "1.f" "-.2f" "0.f") characterlowpoly2 in
  let characterlowpoly2 :=
    set_scale (vec3 ".2f" ".2f" ".2f") characterlowpoly2 in
  gameObjects_emplace (getId characterlowpoly2) characterlowpoly2.

(** The first tree is created and set up, but its [emplace] is commented
    out in the source. *)
Definition loadTreeObjects2 : B unit :=
  let lveModel := createModelFromFile "models/park/Tree/3Trees.obj" in
  tree <- LveGameObject_createGameObject ;;
  let tree := set_model lveModel tree in
  let tree := set_scale (vec3 ".3f" ".3f" ".3f") tree in
  let tree := set_translation (vec3 "-8.5f" ".5f" "0.f") tree in

  let lveModel := createModelFromFile "models/park/Tree01/tree01.obj" in
  tree2 <- LveGameObject_createGameObject ;;
  let tree2 := set_model lveModel tree2 in
  let tree2 := set_scale (vec3 ".3f" ".3f" ".3f") tree2 in
  let tree2 := set_translation (vec3 "-8.5f" ".5f" "0.f") tree2 in
  gameObjects_emplace (getId tree2) tree2.

Definition loadBenchObjects2 : B unit :=
  let lveModel := createModelFromFile "models/park/bench/bench-1.obj" in
  tree <- LveGameObject_createGameObject ;;
  let tree := set_model lveModel tree in
  let tree := set_translation (vec3 "-2.f" ".5f" "4.f") tree in
  let tree := set_scale (vec3 ".5f" ".5f" ".5f") tree in
  let tree := set_rotation (vec3 "0.f" "2.f" "0.f") tree in
  gameObjects_emplace (getId tree) tree.

(** The body of the loop of [loadBushObjects] for one [i]. *)
Definition bush_row (lveModel : Model) (i : Z) : B unit :=
  bush <- LveGameObject_createGameObject ;;
  let bush := set_model lveModel bush in
  let bush :=
    set_translation
      (mkVec3 (flit "-10.f") (flit ".13f") (fmul (of_int i) (flit ".9f")))
      bush in
  let bush := set_scale (vec3 ".5f" "1.f" ".5f") bush in
  let bush := set_rotation (vec3 "0.f" "2.f" "0.f") bush in
  gameObjects_emplace (getId bush) bush ;;

  bushL <- LveGameObject_createGameObject ;;
  let bushL := set_model lveModel bushL in
  let bushL :=
    set_translation
      (mkVec3 (flit "10.f") (flit ".2f") (fmul (of_int i) (flit ".9f")))
      bushL in
  let bushL := set_scale (vec3 ".5f" "1.f" ".5f") bushL in
  let bushL := set_rotation (vec3 "0.f" "2.f" "0.f") bushL in
  gameObjects_emplace (getId bushL) bushL ;;

  bush3 <- LveGameObject_createGameObject ;;
  let bush3 := set_model lveModel bush3 in
  let bush3 :=
    set_translation
      (mkVec3 (fmul (of_int i) (flit "1.f")) (flit ".2f") (flit "9.7f"))
      bush3 in
  let bush3 := set_scale (vec3 ".5f" "1.f" ".5f") bush3 in
  let bush3 := set_rotation (vec3 "0.f" "0.f" "0.f") bush3 in
  gameObjects_emplace (getId bush3) bush3 ;;

  bush4 <- LveGameObject_createGameObject ;;
  let bush4 := set_model lveModel bush4 in
  let bush4 :=
    set_translation
      (mkVec3 (fmul (of_int i) (flit "1.f")) (flit ".2f") (flit "-9.7f"))
      bush4 in
  let bush4 := set_scale (vec3 ".5f" "1.f" ".5f") bush4 in
  let bush4 := set_rotation (vec3 "0.f" "0.f" "0.f") bush4 in
  gameObjects_emplace (getId bush4) bush4.

Definition loadBushObjects : B unit :=
  let lveModel := createModelFromFile "models/park/bush/bush-1.obj" in
  for_le (-10) 10 (bush_row lveModel).

(** The body of the loop of [loadPlantObjects]. *)
Definition plant_one (lveModel : Model) (i : Z) : B unit :=
  plant <- LveGameObject_createGameObject ;;
  let plant := set_model lveModel plant in
  r <- std_rand ;;
  let x := rand_float "-10.f" r "20.f" in
  let y := flit ".5f" in
  r <- std_rand ;;
  let z := rand_float "-10.f" r "20.f" in
  r <- std_rand ;;
  let scale := rand_float "0.3f" r "0.7f" in
  let plant := set_translation (mkVec3 x y z) plant in
  let plant := set_scale (mkVec3 scale scale scale) plant in
  let plant := set_rotation (vec3 "0.f" "2.f" "3.1f") plant in
  gameObjects_emplace (getId plant) plant.

Definition loadPlantObjects : B unit :=
  std_srand ;;
  let lveModel := createModelFromFile "models/park/plant/plant-1.obj" in
  r <- std_rand ;;
  let numPlants := numPlants_of r in
  for_lt 0 numPlants (plant_one lveModel).

(** [FirstApp::FirstApp()] of the second listing, after the descriptor
    pool. *)
Definition FirstApp2 : B unit :=
  loadGameObjects2 ;;
  loadTreeObjects2 ;;
  loadBenchObjects2 ;;
  loadBushObjects ;;
  loadSolarLight ;;
  loadPlantObjects.

(** The member [gameObjects] of a newly constructed application that has
    [c] objects created before it. *)
Definition builder_init (c : nat) : Builder := mkBuilder [] c 0.

(** Identifiers are unique: no two creations get the same one. *)
Definition unique_ids : Prop :=
  forall m n : nat, id_nth m = id_nth n -> m = n.

(** A registry whose keys are distinct and were all given out before the
    [c]-th creation. *)
Definition keyed (m : Map) (c : nat) : Prop :=
  NoDup (map fst m)
  /\ forall n, (c <= n)%nat -> ~ In (id_nth n) (map fst m).

Definition well_keyed (b : Builder) : Prop :=
  keyed (b_gameObjects b) (b_created b).

(** [c] creates [m] objects and appends [n] entities to the registry,
    whose light descriptors are [ls] and which all satisfy [P]. *)
Definition adds (c : B unit) (n m : nat) (ls : list PointLight)
  (P : LveGameObject -> Prop) : Prop :=
  forall b, well_keyed b ->
    well_keyed (build c b)
    /\ b_created (build c b) = (b_created b + m)%nat
    /\ exists added,
         b_gameObjects (build c b) = b_gameObjects b ++ added
         /\ length added = n
         /\ scene_lights added = ls
         /\ Forall (fun kv => P (snd kv)) added.

(** A bush of [loadBushObjects]: the shared mesh, no light, and a place
    on one of the four sides of the square. *)
Definition is_bush (o : LveGameObject) : Prop :=
  model o = Some (createModelFromFile "models/park/bush/bush-1.obj")
  /\ pointLight o = None
  /\ scale (transform o) = vec3 ".5f" "1.f" ".5f"
  /\ (x (translation (transform o)) = flit "-10.f"
      \/ x (translation (transform o)) = flit "10.f"
      \/ z (translation (transform o)) = flit "9.7f"
      \/ z (translation (transform o)) = flit "-9.7f").

(** A plant of [loadPlantObjects]: the shared mesh, no light, height
    [.5f], the same scale along the three axes. *)
Definition is_plant (o : LveGameObject) : Prop :=
  model o = Some (createModelFromFile "models/park/plant/plant-1.obj")
  /\ pointLight o = None
  /\ y (translation (transform o)) = flit ".5f"
  /\ x (scale (transform o)) = y (scale (transform o))
  /\ y (scale (transform o)) = z (scale (transform o)).

(** An entity that carries either a mesh or a light, not both and not
    neither. *)
Definition mesh_or_light (o : LveGameObject) : Prop :=
  (model o <> None /\ pointLight o = None)
  \/ (model o = None /\ pointLight o <> None).

(** [c] only appends to the registry, at most [n] entities. *)
Definition extends (c : B unit) (n : nat) : Prop :=
  forall b, exists added,
    b_gameObjects (build c b) = b_gameObjects b ++ added
    /\ (length added <= n)%nat.

End SceneBuilding.

(** The scene collaborators of the small instance: identifiers count
    the creations, the first random value is 13. *)
Definition demo_builder : @SceneExternals demo_carriers :=
  mkSceneExternals (T := demo_carriers)
    (fun _ => tt)
    (fun s => Z.of_nat (String.length s))
    (fun n => n * 1000)
    Z.add Z.mul Z.div
    32767
    (fun n => 13 + Z.of_nat n)
    Z.of_nat
    (demo_object 0 (demo_vec 0 0 0) None None).

(** A registry that already holds the identifier of the next creation. *)
Definition demo_clash : @Builder demo_carriers :=
  mkBuilder [(0, demo_object 0 (demo_vec 0 0 0) (Some tt) None)] 0 0.

Section Properties.

Context {T : Carriers} {X : Externals}.

Lemma iteration_skipped (i : Input) (w : World) :
  in_frame i = false ->
  exec (iteration i) w =
  mkWorld (app_gameObjects w) (lveRenderer w) (uboBuffers w)
          (camera_of i w) (viewer_of i w) (in_now i) (recorded w)
          (trace w ++ prelude_events i w ++ [EvBeginFrame None]).
Proof.
  intros H. unfold exec, iteration, lveRenderer_beginFrame, beginFrame.
  cbn. rewrite H. cbn. rewrite <- !app_assoc. reflexivity.
Qed.

Lemma iteration_rendered (i : Input) (w : World) :
  in_frame i = true ->
  exec (iteration i) w =
  let k := currentFrameIndex (lveRenderer w) in
  let fi := frameInfo_of i w in
  mkWorld (app_gameObjects w)
          (endFrame (mkRenderer k true))
          (vec_apply flush
             (vec_apply (writeToBuffer (ubo_of i w)) (uboBuffers w)
                        (Z.to_nat k))
             (Z.to_nat k))
          (camera_of i w) (viewer_of i w) (in_now i)
          (recorded w ++ snd (simpleRenderSystem_renderGameObjects fi)
                      ++ snd (pointLightSystem_render fi))
          (trace w ++ prelude_events i w ++ frame_events i w).
Proof.
  intros H. unfold exec, iteration, lveRenderer_beginFrame, beginFrame.
  cbn. rewrite H. cbn. rewrite <- !app_assoc. reflexivity.
Qed.

Lemma loop_cons (i : Input) (rest : list Input) (w : World) :
  exec (loop (i :: rest)) w = exec (loop rest) (exec (iteration i) w).
Proof.
  unfold exec. cbn [loop]. unfold bind.
  destruct (iteration i w) as [u w']. reflexivity.
Qed.

Lemma loop_nil (w : World) : exec (loop []) w = w.
Proof. reflexivity. Qed.

Lemma run_unfold (app : Map) (r : LveRenderer) (t0 : Z) (ins : list Input) :
  run app r t0 ins =
  exec (emit EvDeviceWaitIdle) (exec (loop ins) (run_setup app r t0)).
Proof.
  unfold run, exec, bind.
  destruct (loop ins (run_setup app r t0)) as [u w']. reflexivity.
Qed.

Lemma iteration_trace (i : Input) (w : World) :
  trace (exec (iteration i) w) = trace w ++ iteration_events i w.
Proof.
  unfold iteration_events. destruct (in_frame i) eqn:E.
  - rewrite (iteration_rendered i w E). reflexivity.
  - rewrite (iteration_skipped i w E). reflexivity.
Qed.

Lemma renders_app (a b : list Event) : renders (a ++ b) = renders a ++ renders b.
Proof. apply flat_map_app. Qed.

Lemma updates_app (a b : list Event) : updates (a ++ b) = updates a ++ updates b.
Proof. apply flat_map_app. Qed.

Lemma uploads_app (a b : list Event) : uploads (a ++ b) = uploads a ++ uploads b.
Proof. apply flat_map_app. Qed.

Lemma slots_app (a b : list Event) : slots (a ++ b) = slots a ++ slots b.
Proof. apply flat_map_app. Qed.

Lemma observed_app (a b : list Event) :
  observed (a ++ b) = observed a ++ observed b.
Proof. apply flat_map_app. Qed.

Lemma frameTimes_app (a b : list Event) :
  frameTimes (a ++ b) = frameTimes a ++ frameTimes b.
Proof. apply flat_map_app. Qed.

Lemma loop_renders (ins : list Input) (w : World) :
  renders (trace (exec (loop ins) w)) =
  renders (trace w) ++
  flat_map (fun i => if in_frame i then render_order else []) ins.
Proof.
  revert w. induction ins as [|i rest IH]; intros w.
  - rewrite loop_nil. cbn. now rewrite app_nil_r.
  - rewrite loop_cons, IH, iteration_trace, renders_app, <- app_assoc.
    f_equal. cbn [flat_map]. f_equal.
    unfold iteration_events. rewrite renders_app.
    destruct (in_frame i); reflexivity.
Qed.

Lemma run_trace (app : Map) (r : LveRenderer) (t0 : Z) (ins : list Input) :
  trace (run app r t0 ins) =
  trace (exec (loop ins) (run_setup app r t0)) ++ [EvDeviceWaitIdle].
Proof. rewrite run_unfold. reflexivity. Qed.

Lemma iteration_camera (i : Input) (w : World) :
  run_camera (exec (iteration i) w) = camera_of i w
  /\ viewerObject (exec (iteration i) w) = viewer_of i w
  /\ currentTime (exec (iteration i) w) = in_now i
  /\ app_gameObjects (exec (iteration i) w) = app_gameObjects w.
Proof.
  destruct (in_frame i) eqn:E.
  - rewrite (iteration_rendered i w E). cbn. auto.
  - rewrite (iteration_skipped i w E). cbn. auto.
Qed.

(** C1.  In every run, the render calls recorded in the call trace are,
    frame after frame, [simpleRenderSystem.renderGameObjects] followed by
    [pointLightSystem.render]: each iteration in which [beginFrame]
    yields a command buffer contributes exactly this pair in this order,
    and an iteration without a command buffer contributes none. *)
Theorem render_order_fixed (app : Map) (r : LveRenderer) (t0 : Z)
  (ins : list Input) :
  renders (trace (run app r t0 ins)) =
  flat_map (fun i => if in_frame i
                     then [SimpleRenderSystem; PointLightSystem]
                     else []) ins.
Proof.
  rewrite run_trace, renders_app, loop_renders. cbn.
  now rewrite app_nil_r.
Qed.

(** C2.  In a rendered frame the block is written to the slot's buffer
    exactly once; the write comes directly after the return of
    [pointLightSystem.update] and before [beginSwapChainRenderPass]; the
    render calls all come after it, and at the end of the frame the
    buffer holds what was written and flushed. *)
Theorem ubo_written_once_between_update_and_pass (i : Input) (w : World) :
  in_frame i = true ->
  let k := currentFrameIndex (lveRenderer w) in
  let w' := exec (iteration i) w in
  exists pre post fi u,
    trace w' =
      trace w ++ pre ++
      [EvUpdate PointLightSystem fi; EvWriteToBuffer k u; EvFlush k;
       EvBeginSwapChainRenderPass] ++ post
    /\ updates pre = [] /\ uploads pre = [] /\ renders pre = []
    /\ updates post = [] /\ uploads post = []
    /\ renders post = [SimpleRenderSystem; PointLightSystem]
    /\ u = snd (pointLightSystem_update fi
                  (mkUbo (getProjection (camera fi)) (getView (camera fi))
                         (getInverseView (camera fi))
                         (pointLights ubo_init) (numLights ubo_init)))
    /\ uboBuffers w' =
       vec_apply flush
         (vec_apply (writeToBuffer u) (uboBuffers w) (Z.to_nat k))
         (Z.to_nat k).
Proof.
  intros E k w'.
  exists (prelude_events i w ++
          [EvBeginFrame (Some k); EvGetFrameIndex k; EvNewGlobalUbo]),
         [EvRender SimpleRenderSystem (frameInfo_of i w);
          EvRender PointLightSystem (frameInfo_of i w);
          EvEndSwapChainRenderPass; EvEndFrame],
         (frameInfo_of i w), (ubo_of i w).
  subst w'. rewrite (iteration_rendered i w E). cbn.
  repeat split; reflexivity.
Qed.

(** C4.  An iteration in which [beginFrame] yields no command buffer
    calls neither an update nor a render, constructs and uploads no
    [GlobalUbo], leaves the buffers, the renderer, the registry and the
    recorded commands as they were, and the loop goes on with the next
    iteration. *)
Theorem skipped_frame_invokes_nothing (i : Input) (rest : list Input)
  (w : World) :
  in_frame i = false ->
  let w' := exec (iteration i) w in
  let evs := prelude_events i w ++ [EvBeginFrame None] in
  trace w' = trace w ++ evs
  /\ updates evs = [] /\ renders evs = [] /\ uploads evs = []
  /\ ~ In EvNewGlobalUbo evs
  /\ uboBuffers w' = uboBuffers w
  /\ lveRenderer w' = lveRenderer w
  /\ app_gameObjects w' = app_gameObjects w
  /\ recorded w' = recorded w
  /\ exec (loop (i :: rest)) w = exec (loop rest) w'.
Proof.
  intros E w' evs. subst w' evs.
  rewrite loop_cons, (iteration_skipped i w E). cbn.
  repeat split; try reflexivity.
  intros H. repeat (destruct H as [H|H]; [discriminate H|]). exact H.
Qed.

Lemma loop_viewer (ins : list Input) (w : World) :
  (viewerObject (exec (loop ins) w), currentTime (exec (loop ins) w)) =
  viewer_path ins (viewerObject w) (currentTime w).
Proof.
  revert w. induction ins as [|i rest IH]; intros w.
  - reflexivity.
  - rewrite loop_cons, IH.
    destruct (iteration_camera i w) as (_ & Hv & Ht & _).
    rewrite Hv, Ht. reflexivity.
Qed.

(** C10.  Every iteration, whether or not [beginFrame] yields a command
    buffer, polls the events, reads the clock, moves the viewer and
    recomputes view and projection; the viewer and the camera after the
    iteration are the recomputed ones, so they advance through any
    sequence of iterations, skipped or not; in a skipped iteration no
    system runs and nothing is uploaded. *)
Theorem camera_advances_on_every_iteration (i : Input) (ins : list Input)
  (w : World) :
  let w' := exec (iteration i) w in
  (exists rest,
      trace w' = trace w ++ prelude_events i w ++ rest
      /\ (in_frame i = false ->
          updates rest = [] /\ renders rest = [] /\ uploads rest = []
          /\ uboBuffers w' = uboBuffers w))
  /\ viewerObject w' =
     moveInPlaneXZ (in_keys i) (toSeconds (in_now i - currentTime w))
                   (viewerObject w)
  /\ run_camera w' =
     setPerspectiveProjection radians_50 (in_aspect i) lit_0_1 lit_100
       (setViewYXZ (translation (transform (viewerObject w')))
                   (rotation (transform (viewerObject w')))
                   (run_camera w))
  /\ viewerObject (exec (loop ins) w) =
     fst (viewer_path ins (viewerObject w) (currentTime w)).
Proof.
  intros w'. subst w'. split; [|split; [|split]].
  - exists (if in_frame i then frame_events i w else [EvBeginFrame None]).
    split.
    + apply iteration_trace.
    + intros E. rewrite E, (iteration_skipped i w E). cbn. auto.
  - apply iteration_camera.
  - destruct (iteration_camera i w) as (Hc & Hv & _).
    rewrite Hc, Hv. reflexivity.
  - rewrite <- loop_viewer. reflexivity.
Qed.

(** *** The frame slot ring *)

Lemma zseq_S {A : Type} (g : Z -> A) (n : nat) :
  map g (zseq (S n)) = g 0 :: map (fun f => g (f + 1)) (zseq n).
Proof.
  unfold zseq. cbn [seq map]. f_equal.
  rewrite <- seq_shift, !map_map. apply map_ext.
  intros a. f_equal. lia.
Qed.

Lemma nth_error_zseq {A : Type} (g : Z -> A) (n j : nat) :
  (j < n)%nat -> nth_error (map g (zseq n)) j = Some (g (Z.of_nat j)).
Proof.
  intros H. unfold zseq. rewrite map_map.
  rewrite (nth_error_map (fun a => g (Z.of_nat a)) j (seq 0 n)).
  rewrite nth_error_seq.
  destruct (Nat.ltb_spec j n); [reflexivity | lia].
Qed.

Lemma begun_cons (i : Input) (rest : list Input) :
  begun (i :: rest) = if in_frame i then S (begun rest) else begun rest.
Proof. unfold begun. cbn. destruct (in_frame i); reflexivity. Qed.

Lemma loop_slots (ins : list Input) (w : World) :
  0 < MAX_FRAMES_IN_FLIGHT ->
  0 <= currentFrameIndex (lveRenderer w) < MAX_FRAMES_IN_FLIGHT ->
  slots (trace (exec (loop ins) w)) =
  slots (trace w) ++
  map (fun f => (currentFrameIndex (lveRenderer w) + f)
                mod MAX_FRAMES_IN_FLIGHT)
      (zseq (begun ins)).
Proof.
  intros HN. revert w. induction ins as [|i rest IH]; intros w Hk.
  - rewrite loop_nil. cbn. now rewrite app_nil_r.
  - rewrite loop_cons, begun_cons. destruct (in_frame i) eqn:E.
    + rewrite IH; rewrite (iteration_rendered i w E);
        cbn [lveRenderer trace endFrame currentFrameIndex].
      * rewrite slots_app, <- app_assoc. f_equal.
        rewrite zseq_S.
        change (slots (prelude_events i w ++ frame_events i w))
          with [currentFrameIndex (lveRenderer w)].
        cbn [app]. f_equal.
        -- rewrite Z.add_0_r. symmetry. apply Z.mod_small. exact Hk.
        -- apply map_ext. intros f.
           rewrite Z.add_mod_idemp_l by lia. f_equal. lia.
      * apply Z.mod_pos_bound. exact HN.
    + rewrite IH; rewrite (iteration_skipped i w E);
        cbn [lveRenderer trace].
      * rewrite slots_app, <- app_assoc. cbn. reflexivity.
      * exact Hk.
Qed.

Lemma contexts_app (a b : list Event) :
  contexts (a ++ b) = contexts a ++ contexts b.
Proof. apply flat_map_app. Qed.

(** In the events of one iteration the slot written and the index and
    descriptor set of every frame context are the index that was read. *)
Lemma iteration_used (i : Input) (w : World) :
  let evs := iteration_events i w in
  map fst (uploads evs) = slots evs
  /\ map frameIndex (contexts evs) = flat_map thrice (slots evs)
  /\ map globalDescriptorSet (contexts evs) = flat_map thrice (slots evs).
Proof.
  unfold iteration_events. destruct (in_frame i); repeat split; reflexivity.
Qed.

Lemma loop_used (ins : list Input) (w : World) :
  map fst (uploads (trace w)) = slots (trace w)
  /\ map frameIndex (contexts (trace w)) = flat_map thrice (slots (trace w))
  /\ map globalDescriptorSet (contexts (trace w))
     = flat_map thrice (slots (trace w)) ->
  let t := trace (exec (loop ins) w) in
  map fst (uploads t) = slots t
  /\ map frameIndex (contexts t) = flat_map thrice (slots t)
  /\ map globalDescriptorSet (contexts t) = flat_map thrice (slots t).
Proof.
  revert w. induction ins as [|i rest IH]; intros w H.
  - exact H.
  - cbn zeta. rewrite loop_cons. apply IH.
    destruct H as (H1 & H2 & H3).
    destruct (iteration_used i w) as (I1 & I2 & I3).
    rewrite iteration_trace, uploads_app, contexts_app, slots_app.
    rewrite !map_app, flat_map_app, H1, H2, H3, I1, I2, I3.
    repeat split; reflexivity.
Qed.

Lemma run_used (app : Map) (r : LveRenderer) (t0 : Z) (ins : list Input) :
  let t := trace (run app r t0 ins) in
  map fst (uploads t) = slots t
  /\ map frameIndex (contexts t) = flat_map thrice (slots t)
  /\ map globalDescriptorSet (contexts t) = flat_map thrice (slots t).
Proof.
  cbn zeta. rewrite run_trace, uploads_app, contexts_app, slots_app.
  change (uploads [EvDeviceWaitIdle]) with (@nil (Z * GlobalUbo)).
  change (contexts [EvDeviceWaitIdle]) with (@nil FrameInfo).
  change (slots [EvDeviceWaitIdle]) with (@nil Z).
  rewrite !app_nil_r.
  apply loop_used. repeat split; reflexivity.
Qed.

(** C3.  Starting from a fresh renderer, the F-th begun frame uses the
    slot F mod N, whatever iterations are skipped in between: this is
    the index it reads, the index of the buffer it writes, and the frame
    index and descriptor set of the frame context handed to its update
    and render calls.  The sequence of slots used has period N, takes
    every value of [0, N) once N frames have been begun, and for N = 2
    and five begun frames it is 0, 1, 0, 1, 0. *)
Theorem frame_slot_is_count_mod_N (app : Map) (t0 : Z) (ins : list Input) :
  0 < MAX_FRAMES_IN_FLIGHT ->
  let N := MAX_FRAMES_IN_FLIGHT in
  let t := trace (run app renderer_init t0 ins) in
  let ring := map (fun f => f mod N) (zseq (begun ins)) in
  let used := map fst (uploads t) in
  slots t = ring
  /\ used = ring
  /\ map frameIndex (contexts t) = flat_map thrice ring
  /\ map globalDescriptorSet (contexts t) = flat_map thrice ring
  /\ (forall f, (f + Z.to_nat N < begun ins)%nat ->
                nth_error used (f + Z.to_nat N) = nth_error used f)
  /\ (forall s, 0 <= s < N -> (Z.to_nat N <= begun ins)%nat -> In s used)
  /\ (N = 2 -> begun ins = 5%nat -> used = [0; 1; 0; 1; 0]).
Proof.
  intros HN N t ring used.
  assert (Hread : slots t = ring).
  { subst t ring. rewrite run_trace, slots_app, loop_slots; cbn; try lia.
    rewrite app_nil_r. reflexivity. }
  destruct (run_used app renderer_init t0 ins) as (U1 & U2 & U3).
  fold t in U1, U2, U3. rewrite Hread in U1, U2, U3. fold used in U1.
  split; [exact Hread|]. split; [exact U1|].
  split; [exact U2|]. split; [exact U3|].
  rewrite U1. subst ring. split; [|split].
  - intros f Hf. rewrite !nth_error_zseq by lia. f_equal.
    rewrite Nat2Z.inj_add, Z2Nat.id by (subst N; lia).
    rewrite <- (Z.mul_1_l N) at 1. apply Z_mod_plus_full.
  - intros s Hs Hn. apply in_map_iff. exists s. split.
    + apply Z.mod_small. exact Hs.
    + unfold zseq. apply in_map_iff. exists (Z.to_nat s). split.
      * apply Z2Nat.id. lia.
      * apply in_seq. lia.
  - intros H2 H5. rewrite H2, H5. reflexivity.
Qed.

(** *** The registry *)

Lemma contains_false (m : Map) (k : id_t) :
  ~ In k (map fst m) -> contains m k = false.
Proof.
  unfold contains. induction m as [|[k' o] m IH]; cbn; intros H.
  - reflexivity.
  - rewrite IH by tauto.
    destruct (Z.eqb_spec k' k); [tauto | reflexivity].
Qed.

Lemma emplace_all_fresh (kvs : list (id_t * LveGameObject)) (m : Map) :
  NoDup (map fst m ++ map fst kvs) -> emplace_all m kvs = m ++ kvs.
Proof.
  revert m. induction kvs as [|[k o] kvs IH]; intros m H; cbn.
  - now rewrite app_nil_r.
  - cbn in H. unfold emplace at 2. cbn.
    rewrite contains_false.
    + unfold emplace_all in IH. rewrite IH.
      * now rewrite <- app_assoc.
      * rewrite map_app, <- app_assoc. exact H.
    + apply NoDup_remove_2 in H. intros Hin. apply H.
      apply in_or_app. now left.
Qed.

Lemma loop_registry (ins : list Input) (w : World) :
  app_gameObjects (exec (loop ins) w) = app_gameObjects w.
Proof.
  revert w. induction ins as [|i rest IH]; intros w.
  - reflexivity.
  - rewrite loop_cons, IH. apply iteration_camera.
Qed.

Lemma iteration_observed (i : Input) (w : World) :
  Forall (fun m => m = app_gameObjects w) (observed (iteration_events i w)).
Proof.
  unfold iteration_events. rewrite observed_app.
  destruct (in_frame i); cbn; repeat constructor.
Qed.

Lemma loop_observed (ins : list Input) (w : World) (g : Map) :
  app_gameObjects w = g ->
  Forall (fun m => m = g) (observed (trace w)) ->
  Forall (fun m => m = g) (observed (trace (exec (loop ins) w))).
Proof.
  revert w. induction ins as [|i rest IH]; intros w Hg Hw.
  - exact Hw.
  - rewrite loop_cons. apply IH.
    + rewrite <- Hg. apply iteration_camera.
    + rewrite iteration_trace, observed_app. apply Forall_app. split.
      * exact Hw.
      * rewrite <- Hg. apply iteration_observed.
Qed.

Lemma run_observed (app : Map) (r : LveRenderer) (t0 : Z)
  (ins : list Input) :
  Forall (fun m => m = app) (observed (trace (run app r t0 ins))).
Proof.
  rewrite run_trace, observed_app. apply Forall_app. split.
  - apply loop_observed; [reflexivity | constructor].
  - constructor.
Qed.

Lemma run_registry (app : Map) (r : LveRenderer) (t0 : Z)
  (ins : list Input) :
  app_gameObjects (run app r t0 ins) = app.
Proof. rewrite run_unfold. cbn. now rewrite loop_registry. Qed.

(** C7.  During [run] the registry is never changed: after any number
    of iterations it is the registry the application was constructed
    with, every update and render call of every frame is handed that
    same registry, and each of the three calls hands it back as it
    received it. *)
Theorem registry_unchanged_during_frames (app : Map) (r : LveRenderer)
  (t0 : Z) (ins : list Input) :
  app_gameObjects (run app r t0 ins) = app
  /\ Forall (fun m => m = app) (observed (trace (run app r t0 ins)))
  /\ (forall fi ubo, fst (pointLightSystem_update fi ubo) = gameObjects fi)
  /\ (forall fi, fst (simpleRenderSystem_renderGameObjects fi)
                 = gameObjects fi)
  /\ (forall fi, fst (pointLightSystem_render fi) = gameObjects fi).
Proof.
  split; [apply run_registry|]. split; [apply run_observed|].
  repeat split; reflexivity.
Qed.

(** C8.  A registry filled by [emplace] with distinct identifiers lists
    the entities in the order of insertion, and in every frame of a run
    over it each update and render call observes exactly this list. *)
Theorem registry_iterates_in_insertion_order
  (kvs : list (id_t * LveGameObject)) (r : LveRenderer) (t0 : Z)
  (ins : list Input) :
  NoDup (map fst kvs) ->
  let app := emplace_all [] kvs in
  app = kvs
  /\ Forall (fun m => m = kvs) (observed (trace (run app r t0 ins))).
Proof.
  intros H app.
  assert (E : app = kvs) by (subst app; now rewrite emplace_all_fresh).
  split; [exact E|]. rewrite E. apply run_observed.
Qed.

(** *** The uniform buffers *)

Lemma vec_set_length {A : Type} (l : list A) (k : nat) (a : A) :
  length (vec_set l k a) = length l.
Proof.
  revert k. induction l as [|h t IH]; intros [|k]; cbn; auto.
Qed.

Lemma vec_set_same {A : Type} (l : list A) (k : nat) (a : A) :
  (k < length l)%nat -> nth_error (vec_set l k a) k = Some a.
Proof.
  revert k. induction l as [|h t IH]; intros [|k] H; cbn in *;
    try lia; auto. apply IH. lia.
Qed.

Lemma vec_apply_length {A : Type} (f : A -> A) (l : list A) (k : nat) :
  length (vec_apply f l k) = length l.
Proof.
  unfold vec_apply. destruct (nth_error l k); auto using vec_set_length.
Qed.

Lemma vec_apply_same {A : Type} (f : A -> A) (l : list A) (k : nat) (a : A) :
  nth_error l k = Some a -> nth_error (vec_apply f l k) k = Some (f a).
Proof.
  intros H. unfold vec_apply. rewrite H. apply vec_set_same.
  apply nth_error_Some. congruence.
Qed.

Lemma upload_same (bs : list LveBuffer) (k : nat) (u : GlobalUbo) :
  (k < length bs)%nat ->
  nth_error (vec_apply flush (vec_apply (writeToBuffer u) bs k) k) k
  = Some (mkBuffer (Some u) (Some u)).
Proof.
  intros H. destruct (nth_error bs k) as [b|] eqn:E.
  - rewrite (vec_apply_same flush _ _
               (vec_apply_same (writeToBuffer u) _ _ E)).
    reflexivity.
  - apply nth_error_None in E. lia.
Qed.

Lemma loop_buffers_length (ins : list Input) (w : World) :
  length (uboBuffers (exec (loop ins) w)) = length (uboBuffers w).
Proof.
  revert w. induction ins as [|i rest IH]; intros w.
  - reflexivity.
  - rewrite loop_cons, IH. destruct (in_frame i) eqn:E.
    + rewrite (iteration_rendered i w E). cbn.
      now rewrite !vec_apply_length.
    + now rewrite (iteration_skipped i w E).
Qed.

(** Every slot index that [run] reads lies inside the vectors of
    per-frame resources. *)
Lemma loop_slot_in_range (app : Map) (t0 : Z) (ins : list Input) :
  0 < MAX_FRAMES_IN_FLIGHT ->
  Forall (fun k => 0 <= k < MAX_FRAMES_IN_FLIGHT
                   /\ (Z.to_nat k
                       < length (uboBuffers (run app renderer_init t0 ins)))%nat)
         (slots (trace (run app renderer_init t0 ins))).
Proof.
  intros HN.
  assert (L : length (uboBuffers (run app renderer_init t0 ins))
              = Z.to_nat MAX_FRAMES_IN_FLIGHT).
  { rewrite run_unfold. cbn [exec emit snd uboBuffers].
    rewrite loop_buffers_length. cbn. apply repeat_length. }
  rewrite L, run_trace, slots_app, loop_slots by (cbn; lia).
  cbn. rewrite app_nil_r. apply Forall_forall. intros k Hk.
  apply in_map_iff in Hk. destruct Hk as (f & <- & _).
  pose proof (Z.mod_pos_bound f MAX_FRAMES_IN_FLIGHT HN). lia.
Qed.

(** *** The Shared State Block *)

Lemma firstn_length_min {A : Type} (n : nat) (l : list A) :
  length (firstn n l) = Nat.min n (length l).
Proof. apply length_firstn. Qed.

(** C5.  In a rendered frame exactly one update is invoked, that of the
    point light system; the block that is uploaded carries the first
    [MAX_LIGHTS] light descriptors of the registry, taken in its
    iteration order, and their count, which never exceeds [MAX_LIGHTS]
    whatever the size of the registry (for any call of the update, not
    only the one of the loop); the upload is the only change made to the
    buffers in the frame. *)
Theorem light_count_never_exceeds_maximum (i : Input) (w : World) :
  in_frame i = true ->
  let k := currentFrameIndex (lveRenderer w) in
  let w' := exec (iteration i) w in
  let evs := iteration_events i w in
  let all := scene_lights (app_gameObjects w) in
  trace w' = trace w ++ evs
  /\ updates evs = [PointLightSystem]
  /\ (exists u,
        uploads evs = [(k, u)]
        /\ pointLights u = firstn MAX_LIGHTS all
        /\ numLights u = Z.of_nat (Nat.min MAX_LIGHTS (length all))
        /\ numLights u <= Z.of_nat MAX_LIGHTS
        /\ uboBuffers w' =
           vec_apply flush
             (vec_apply (writeToBuffer u) (uboBuffers w) (Z.to_nat k))
             (Z.to_nat k))
  /\ (forall fi ubo,
        let u := snd (pointLightSystem_update fi ubo) in
        numLights u = Z.of_nat (length (pointLights u))
        /\ (length (pointLights u) <= MAX_LIGHTS)%nat
        /\ projection u = projection ubo /\ view u = view ubo
        /\ inverseView u = inverseView ubo).
Proof.
  intros E k w' evs all. subst w' evs.
  split; [apply iteration_trace|].
  unfold iteration_events. rewrite E, (iteration_rendered i w E).
  split; [reflexivity|]. split.
  - exists (ubo_of i w). cbn. fold all.
    rewrite firstn_length_min. repeat split; try reflexivity. lia.
  - intros fi ubo. cbn. rewrite firstn_length_min.
    repeat split; try reflexivity. lia.
Qed.

(** C6.  In a rendered frame the projection, view and inverse view
    uploaded in the block are read from the camera as set in this same
    iteration: from the viewer moved with this iteration's keys and frame
    time, and from this iteration's aspect ratio.  They are also what the
    slot's buffer holds after the flush. *)
Theorem uploaded_matrices_from_same_iteration (i : Input) (w : World) :
  in_frame i = true ->
  let k := currentFrameIndex (lveRenderer w) in
  let w' := exec (iteration i) w in
  let viewer :=
    moveInPlaneXZ (in_keys i) (toSeconds (in_now i - currentTime w))
                  (viewerObject w) in
  let cam :=
    setPerspectiveProjection radians_50 (in_aspect i) lit_0_1 lit_100
      (setViewYXZ (translation (transform viewer))
                  (rotation (transform viewer)) (run_camera w)) in
  exists u,
    uploads (iteration_events i w) = [(k, u)]
    /\ trace w' = trace w ++ iteration_events i w
    /\ projection u = getProjection cam
    /\ view u = getView cam
    /\ inverseView u = getInverseView cam
    /\ run_camera w' = cam
    /\ ((Z.to_nat k < length (uboBuffers w))%nat ->
        nth_error (uboBuffers w') (Z.to_nat k)
        = Some (mkBuffer (Some u) (Some u))).
Proof.
  intros E k w' viewer cam. subst w'. exists (ubo_of i w).
  split; [unfold iteration_events; rewrite E; reflexivity|].
  split; [apply iteration_trace|].
  rewrite (iteration_rendered i w E). cbn.
  repeat split; try reflexivity. apply upload_same.
Qed.

(** *** The frame time *)

Lemma iteration_frameTimes (i : Input) (w : World) :
  frameTimes (iteration_events i w)
  = [toSeconds (in_now i - currentTime w)].
Proof.
  unfold iteration_events. rewrite frameTimes_app.
  destruct (in_frame i); reflexivity.
Qed.

Lemma loop_frameTimes (ins : list Input) (w : World) :
  frameTimes (trace (exec (loop ins) w)) =
  frameTimes (trace w) ++
  map toSeconds (durations (currentTime w) (map in_now ins)).
Proof.
  revert w. induction ins as [|i rest IH]; intros w.
  - rewrite loop_nil. cbn. now rewrite app_nil_r.
  - rewrite loop_cons, IH, iteration_trace, frameTimes_app, <- app_assoc.
    rewrite iteration_frameTimes.
    destruct (iteration_camera i w) as (_ & _ & Ht & _). rewrite Ht.
    reflexivity.
Qed.

Lemma durations_nth (nows : list Z) (t0 : Z) (k : nat) (d : Z) :
  nth_error (durations t0 nows) k = Some d <->
  exists a b, nth_error (t0 :: nows) k = Some a
              /\ nth_error nows k = Some b /\ d = b - a.
Proof.
  revert t0 k. induction nows as [|n rest IH]; intros t0 k.
  - destruct k; cbn; split.
    + discriminate.
    + intros (a & b & _ & H & _). discriminate.
    + discriminate.
    + intros (a & b & _ & H & _). discriminate.
  - destruct k as [|k]; cbn.
    + split.
      * intros H. injection H as <-. now exists t0, n.
      * intros (a & b & Ha & Hb & ->). congruence.
    + apply IH.
Qed.

Lemma durations_nonneg (nows : list Z) (t0 : Z) :
  monotone t0 nows = true -> Forall (fun d => 0 <= d) (durations t0 nows).
Proof.
  revert t0. induction nows as [|n rest IH]; intros t0 H; cbn in *.
  - constructor.
  - apply andb_true_iff in H. destruct H as [H1 H2].
    constructor; [lia | auto].
Qed.

Lemma iteration_context_times (i : Input) (w : World) :
  map frameTime (contexts (iteration_events i w))
  = if in_frame i
    then thrice (toSeconds (in_now i - currentTime w))
    else [].
Proof.
  unfold iteration_events. rewrite contexts_app.
  destruct (in_frame i); reflexivity.
Qed.

Lemma loop_context_times (ins : list Input) (w : World) :
  map frameTime (contexts (trace (exec (loop ins) w))) =
  map frameTime (contexts (trace w)) ++
  handed ins (durations (currentTime w) (map in_now ins)).
Proof.
  revert w. induction ins as [|i rest IH]; intros w.
  - rewrite loop_nil. cbn. now rewrite app_nil_r.
  - rewrite loop_cons, IH, iteration_trace, contexts_app, map_app.
    rewrite <- app_assoc, iteration_context_times.
    destruct (iteration_camera i w) as (_ & _ & Ht & _). rewrite Ht.
    reflexivity.
Qed.

Lemma handed_Forall (P : F -> Prop) (ins : list Input) (ds : list Z) :
  Forall (fun d => P (toSeconds d)) ds -> Forall P (handed ins ds).
Proof.
  intros H. apply Forall_forall. intros ft Hin.
  apply in_flat_map in Hin. destruct Hin as ([i d] & Hid & Hft).
  apply in_combine_r in Hid.
  pose proof (proj1 (Forall_forall _ ds) H d Hid) as Hd.
  cbn in Hft. destruct (in_frame i); [|destruct Hft].
  destruct Hft as [<-|[<-|[<-|[]]]]; exact Hd.
Qed.

(** C9, as the code has it.  In every iteration of a run, the first one
    included (measured from the reading taken just before the loop), the
    frame time handed to [moveInPlaneXZ] and, in the frame context of
    every begun frame, to the update and render calls of the systems is
    the conversion to seconds of the difference between this iteration's
    clock reading and the previous one, with nothing applied to it.  It
    is not negative when the clock does not run backwards, and it is the
    zero frame time whenever two successive readings are equal, on
    whatever iteration that happens, and (for a conversion that gives
    zero for the zero difference only) in no other case. *)
Theorem frame_time_is_raw_clock_difference (app : Map) (r : LveRenderer)
  (t0 : Z) (ins : list Input) :
  let nows := map in_now ins in
  let t := trace (run app r t0 ins) in
  frameTimes t = map toSeconds (durations t0 nows)
  /\ map frameTime (contexts t) = handed ins (durations t0 nows)
  /\ (forall k a b,
        nth_error (t0 :: nows) k = Some a ->
        nth_error nows k = Some b ->
        nth_error (frameTimes t) k = Some (toSeconds (b - a))
        /\ (a = b -> nth_error (frameTimes t) k = Some (toSeconds 0))
        /\ ((forall d, toSeconds d = toSeconds 0 -> d = 0) ->
            nth_error (frameTimes t) k = Some (toSeconds 0) -> a = b))
  /\ (forall (le : F -> F -> Prop) (zero : F),
        (forall d, 0 <= d -> le zero (toSeconds d)) ->
        monotone t0 nows = true ->
        Forall (le zero) (frameTimes t)
        /\ Forall (le zero) (map frameTime (contexts t))).
Proof.
  intros nows t.
  assert (E : frameTimes t = map toSeconds (durations t0 nows)).
  { subst t. rewrite run_trace, frameTimes_app, loop_frameTimes. cbn.
    now rewrite app_nil_r. }
  assert (C : map frameTime (contexts t) = handed ins (durations t0 nows)).
  { subst t. rewrite run_trace, contexts_app, map_app, loop_context_times.
    cbn. now rewrite app_nil_r. }
  split; [exact E|]. split; [exact C|]. split.
  - intros k a b Ha Hb.
    assert (Hk : nth_error (frameTimes t) k = Some (toSeconds (b - a))).
    { rewrite E, nth_error_map.
      rewrite (proj2 (durations_nth nows t0 k (b - a))); [reflexivity|].
      now exists a, b. }
    split; [exact Hk|]. split.
    + intros ->. rewrite Hk, Z.sub_diag. reflexivity.
    + intros Hinj H0. rewrite Hk in H0. injection H0 as H0.
      apply Hinj in H0. lia.
  - intros le zero Hle Hm.
    assert (Hd : Forall (fun d => le zero (toSeconds d)) (durations t0 nows)).
    { apply (Forall_impl _ Hle). now apply durations_nonneg. }
    split.
    + rewrite E. apply Forall_map. exact Hd.
    + rewrite C. apply handed_Forall. exact Hd.
Qed.

End Properties.

(** ** The properties on the small instance *)

Example demo_renders :
  renders (trace (run (X := demo) demo_scene renderer_init 0 demo_inputs))
  = [SimpleRenderSystem; PointLightSystem;
     SimpleRenderSystem; PointLightSystem;
     SimpleRenderSystem; PointLightSystem;
     SimpleRenderSystem; PointLightSystem;
     SimpleRenderSystem; PointLightSystem].
Proof. reflexivity. Qed.

Example demo_lights_truncated :
  map (fun ku => (fst ku, numLights (snd ku),
                  map (@lightIntensity demo_carriers) (pointLights (snd ku))))
      (uploads (trace (run (X := demo) demo_scene renderer_init 0
                           [demo_frame 16; demo_skip 20; demo_frame 33])))
  = [(0, 2, [350200; 5200]); (1, 2, [350200; 5200])].
Proof. reflexivity. Qed.

Example demo_recorded :
  recorded (run (X := demo) demo_scene renderer_init 0 [demo_frame 16])
  = [DrawModel 0; DrawLight 1; DrawLight 2; DrawLight 3].
Proof. reflexivity. Qed.

Lemma ubo_written_once_witness :
  in_frame (demo_frame 16) = true
  /\ exists pre post fi u,
       trace (exec (iteration (X := demo) (demo_frame 16)) demo_world) =
         trace demo_world ++ pre ++
         [EvUpdate PointLightSystem fi; EvWriteToBuffer 0 u; EvFlush 0;
          EvBeginSwapChainRenderPass] ++ post
       /\ uploads pre = [] /\ uploads post = []
       /\ renders post = [SimpleRenderSystem; PointLightSystem].
Proof.
  split; [reflexivity|].
  destruct (ubo_written_once_between_update_and_pass (X := demo)
              (demo_frame 16) demo_world eq_refl)
    as (pre & post & fi & u & H & _ & Hpre & _ & _ & Hpost & Hr & _).
  exists pre, post, fi, u. auto.
Defined.

Lemma frame_slot_witness :
  0 < 2
  /\ map fst (uploads (trace (run (X := demo) demo_scene renderer_init 0
                                  demo_inputs)))
     = [0; 1; 0; 1; 0]
  /\ map frameIndex
         (contexts (trace (run (X := demo) demo_scene renderer_init 0
                               demo_inputs)))
     = flat_map thrice [0; 1; 0; 1; 0].
Proof.
  split; [lia|].
  destruct (frame_slot_is_count_mod_N (X := demo) demo_scene 0 demo_inputs)
    as (_ & _ & Hc & _ & _ & _ & H2); [simpl; lia|].
  split; [apply H2; reflexivity | exact Hc].
Defined.

Lemma skipped_frame_witness :
  in_frame (demo_skip 50) = false
  /\ uploads (prelude_events (X := demo) (demo_skip 50) demo_world
              ++ [EvBeginFrame None]) = []
  /\ uboBuffers (exec (iteration (X := demo) (demo_skip 50)) demo_world)
     = uboBuffers demo_world.
Proof.
  split; [reflexivity|].
  destruct (skipped_frame_invokes_nothing (X := demo) (demo_skip 50) []
              demo_world eq_refl)
    as (_ & _ & _ & Hu & _ & Hb & _).
  auto.
Defined.

Lemma light_count_witness :
  in_frame (demo_frame 16) = true
  /\ exists u,
       uploads (iteration_events (X := demo) (demo_frame 16) demo_world)
       = [(0, u)]
       /\ numLights u = 2
       /\ numLights u <= Z.of_nat (MAX_LIGHTS (Externals := demo)).
Proof.
  split; [reflexivity|].
  destruct (light_count_never_exceeds_maximum (X := demo)
              (demo_frame 16) demo_world eq_refl)
    as (_ & _ & (u & Hu & _ & Hn & Hle & _) & _).
  exists u. auto.
Defined.

Lemma uploaded_matrices_witness :
  in_frame (demo_frame 16) = true
  /\ exists u,
       uploads (iteration_events (X := demo) (demo_frame 16) demo_world)
       = [(0, u)]
       /\ projection u = 873 * 1779
       /\ view u = 16
       /\ inverseView u = - 16.
Proof.
  split; [reflexivity|].
  destruct (uploaded_matrices_from_same_iteration (X := demo)
              (demo_frame 16) demo_world eq_refl)
    as (u & Hu & _ & Hp & Hv & Hi & _).
  exists u. auto.
Defined.

Lemma registry_order_witness :
  NoDup (map fst demo_scene)
  /\ emplace_all [] demo_scene = demo_scene.
Proof.
  assert (H : NoDup (map fst demo_scene))
    by (repeat constructor; simpl; lia).
  split; [exact H|].
  apply (registry_iterates_in_insertion_order (X := demo) demo_scene
           renderer_init 0 demo_inputs H).
Defined.

Lemma frame_time_witness :
  monotone 0 (map (@in_now demo_carriers) demo_inputs) = true
  /\ (forall d, 0 <= d -> 0 <= toSeconds (Externals := demo) d)
  /\ (forall d, toSeconds (Externals := demo) d
                = toSeconds (Externals := demo) 0 -> d = 0)
  /\ nth_error (0 :: map (@in_now demo_carriers) demo_stall) 1 = Some 1
  /\ nth_error (map (@in_now demo_carriers) demo_stall) 1 = Some 1
  /\ Forall (Z.le 0)
            (map (@frameTime demo_carriers)
                 (contexts (trace (run (X := demo) demo_scene renderer_init 0
                                       demo_inputs))))
  /\ nth_error
       (frameTimes (trace (run (X := demo) demo_scene renderer_init 0
                               demo_stall))) 1
     = Some (toSeconds (Externals := demo) 0).
Proof.
  assert (Hm : monotone 0 (map (@in_now demo_carriers) demo_inputs) = true)
    by reflexivity.
  assert (Hc : forall d, 0 <= d -> 0 <= toSeconds (Externals := demo) d)
    by (intros d Hd; simpl; lia).
  assert (Hz : forall d, toSeconds (Externals := demo) d
                         = toSeconds (Externals := demo) 0 -> d = 0)
    by (intros d Hd; simpl in Hd; lia).
  assert (Ha : nth_error (0 :: map (@in_now demo_carriers) demo_stall) 1
               = Some 1) by reflexivity.
  assert (Hb : nth_error (map (@in_now demo_carriers) demo_stall) 1 = Some 1)
    by reflexivity.
  split; [exact Hm|]. split; [exact Hc|]. split; [exact Hz|].
  split; [exact Ha|]. split; [exact Hb|]. split.
  - destruct (frame_time_is_raw_clock_difference (X := demo) demo_scene
                renderer_init 0 demo_inputs) as (_ & _ & _ & Hf).
    exact (proj2 (Hf Z.le 0 Hc Hm)).
  - destruct (frame_time_is_raw_clock_difference (X := demo) demo_scene
                renderer_init 0 demo_stall) as (_ & _ & Hk & _).
    destruct (Hk 1%nat 1 1 Ha Hb) as (_ & H0 & _).
    exact (H0 eq_refl).
Defined.

Lemma camera_advances_witness :
  in_frame (demo_skip 50) = false
  /\ exists rest,
       trace (exec (iteration (X := demo) (demo_skip 50)) demo_world)
       = trace demo_world
         ++ prelude_events (X := demo) (demo_skip 50) demo_world ++ rest
       /\ uploads rest = [].
Proof.
  split; [reflexivity|].
  destruct (camera_advances_on_every_iteration (X := demo) (demo_skip 50)
              [] demo_world) as ((rest & Ht & Hs) & _).
  exists rest. split; [exact Ht|].
  apply (Hs eq_refl).
Defined.

(** C9, as stated, fails on both counts.  With the clock readings 0
    (before the loop), 1 and 1, which never decrease, the second
    iteration hands a frame time of zero to [moveInPlaneXZ] and to the
    three system calls of its frame although it is not the first.  With
    the readings 0, 5 and 3, which [high_resolution_clock] may give
    since it need not be steady, the second iteration hands out the
    negative difference -2. *)
Lemma frame_time_zero_on_second_iteration :
  (monotone 0 [1; 1] = true
   /\ frameTimes (trace (run (X := demo) demo_scene renderer_init 0
                             demo_stall))
      = [toSeconds (Externals := demo) 1; toSeconds (Externals := demo) 0]
   /\ map (@frameTime demo_carriers)
          (contexts (trace (run (X := demo) demo_scene renderer_init 0
                                demo_stall)))
      = thrice (toSeconds (Externals := demo) 1)
        ++ thrice (toSeconds (Externals := demo) 0)
   /\ ~ zero_only_on_first 0 (map (@in_now demo_carriers) demo_stall))
  /\ (frameTimes (trace (run (X := demo) demo_scene renderer_init 0
                             demo_backwards))
      = [5; -2]
      /\ map (@frameTime demo_carriers)
             (contexts (trace (run (X := demo) demo_scene renderer_init 0
                                   demo_backwards)))
         = thrice 5 ++ thrice (-2)
      /\ ~ never_negative 0 (map (@in_now demo_carriers) demo_backwards)).
Proof.
  split.
  - split; [reflexivity|]. split; [reflexivity|]. split; [reflexivity|].
    intros H. specialize (H 1%nat eq_refl). discriminate H.
  - split; [reflexivity|]. split; [reflexivity|].
    intros H. unfold never_negative in H. cbn in H.
    inversion H as [|d l _ H2]. inversion H2 as [|d' l' H3 _]. lia.
Qed.

(** * Properties of the scene construction *)

Section SceneProperties.

Context {T : Carriers} {SE : SceneExternals}.

(** Identifiers are unique, and a newly created object carries no
    light. *)
Hypothesis Hids : unique_ids.
Hypothesis Hblank : pointLight blank = None.
Hypothesis Hmesh : model blank = None.

Lemma build_seq {A : Type} (c1 : B A) (c2 : B unit) (b : Builder) :
  build (bbind c1 (fun _ => c2)) b = build c2 (build c1 b).
Proof. unfold build, bbind. destruct (c1 b). reflexivity. Qed.

Lemma scene_lights_app (a b : Map) :
  scene_lights (a ++ b) = scene_lights a ++ scene_lights b.
Proof. apply flat_map_app. Qed.

Lemma emplace_keyed (m : Map) (c : nat) (o : LveGameObject) :
  keyed m c ->
  emplace m (id_nth c) o = m ++ [(id_nth c, o)]
  /\ keyed (m ++ [(id_nth c, o)]) (Datatypes.S c).
Proof.
  intros [Hn Hf]. split.
  - unfold emplace. rewrite contains_false; [reflexivity|].
    apply Hf. lia.
  - split.
    + rewrite map_app. cbn. apply NoDup_app.
      * exact Hn.
      * repeat constructor. intros [].
      * intros k Hk [E|[]]. subst k. apply (Hf c); [lia | exact Hk].
    + intros n Hle. rewrite map_app. cbn. intros Hin.
      apply in_app_or in Hin. destruct Hin as [Hin|[E|[]]].
      * apply (Hf n); [lia | exact Hin].
      * apply Hids in E. lia.
Qed.

Lemma keyed_skip (m : Map) (c : nat) : keyed m c -> keyed m (Datatypes.S c).
Proof. intros [Hn Hf]. split; [exact Hn|]. intros n H. apply Hf. lia. Qed.

Lemma adds_seq (c1 c2 : B unit) (n1 n2 m1 m2 : nat)
  (l1 l2 : list PointLight) (P : LveGameObject -> Prop) :
  adds c1 n1 m1 l1 P -> adds c2 n2 m2 l2 P ->
  adds (bbind c1 (fun _ => c2)) (n1 + n2) (m1 + m2) (l1 ++ l2) P.
Proof.
  intros H1 H2 b Hb. rewrite build_seq.
  destruct (H1 b Hb) as (K1 & C1 & a1 & E1 & L1 & S1 & P1).
  destruct (H2 _ K1) as (K2 & C2 & a2 & E2 & L2 & S2 & P2).
  split; [exact K2|]. split; [lia|].
  exists (a1 ++ a2). repeat split.
  - rewrite E2, E1. now rewrite app_assoc.
  - rewrite length_app. lia.
  - rewrite scene_lights_app. congruence.
  - apply Forall_app. split; assumption.
Qed.

Lemma adds_weaken (c : B unit) (n m : nat) (ls : list PointLight)
  (P Q : LveGameObject -> Prop) :
  (forall o, P o -> Q o) -> adds c n m ls P -> adds c n m ls Q.
Proof.
  intros HPQ H b Hb. destruct (H b Hb) as (K & C & a & E & L & S' & HP).
  split; [exact K|]. split; [exact C|]. exists a. repeat split; auto.
  apply (Forall_impl _ (fun kv => HPQ (snd kv)) HP).
Qed.

Lemma adds_for_each {A : Type} (l : list A) (body : A -> B unit)
  (n m : nat) (P : LveGameObject -> Prop) :
  (forall a, adds (body a) n m [] P) ->
  adds (for_each l body) (length l * n) (length l * m) [] P.
Proof.
  intros H. induction l as [|a l IH].
  - intros b Hb. cbn. split; [exact Hb|]. split; [lia|].
    exists []. rewrite app_nil_r. repeat split. constructor.
  - cbn [for_each length Nat.mul].
    apply (adds_seq (H a) IH).
Qed.

Ltac emplace_step :=
  match goal with
  | K : keyed ?m ?c |- context [emplace ?m (id_nth ?c) ?o] =>
      let E := fresh "E" in
      let K' := fresh "K" in
      destruct (emplace_keyed o K) as [E K']; rewrite E; clear E K
  end.

Ltac run_builder :=
  intros b Hb; unfold well_keyed in *;
  cbn -[emplace createModelFromFile flit] in *;
  repeat emplace_step.

Ltac close_adds tac :=
  split; [assumption|]; split; [lia|];
  eexists; split; [rewrite <- ?app_assoc; reflexivity|];
  split; [reflexivity|]; split;
  [ unfold scene_lights, light_of; cbn; rewrite ?Hblank; reflexivity
  | repeat (apply Forall_cons; [cbn; tac|]); apply Forall_nil ].

Ltac meshed := left; cbn; split; [discriminate | exact Hblank].

Lemma loadGameObjects2_adds :
  adds loadGameObjects2 2 2 [] mesh_or_light.
Proof. run_builder. close_adds meshed. Qed.

Lemma loadGameObjects1_adds :
  adds loadGameObjects1 2 2 [] mesh_or_light.
Proof. run_builder. close_adds meshed. Qed.

Lemma loadBenchObjects1_adds :
  adds loadBenchObjects1 1 1 [] mesh_or_light.
Proof. run_builder. close_adds meshed. Qed.

Lemma loadBenchObjects2_adds :
  adds loadBenchObjects2 1 1 [] mesh_or_light.
Proof. run_builder. close_adds meshed. Qed.

Lemma loadTreeObjects1_adds :
  adds loadTreeObjects1 1 1 [] mesh_or_light.
Proof. run_builder. close_adds meshed. Qed.

Lemma loadTreeObjects2_adds :
  adds loadTreeObjects2 1 2 [] mesh_or_light.
Proof.
  intros b Hb. unfold well_keyed in *.
  apply keyed_skip in Hb.
  cbn -[emplace createModelFromFile flit] in *.
  repeat emplace_step. close_adds meshed.
Qed.

Lemma loadSolarLight_adds :
  adds loadSolarLight 1 1 [solar_light] mesh_or_light.
Proof.
  run_builder.
  close_adds ltac:(right; cbn; split; [exact Hmesh | discriminate]).
Qed.

Lemma bush_row_adds (m : Model) (i : Z) :
  m = createModelFromFile "models/park/bush/bush-1.obj" ->
  adds (bush_row m i) 4 4 [] is_bush.
Proof.
  intros ->. run_builder.
  close_adds ltac:(unfold is_bush; cbn;
                   repeat split; auto using Hblank).
Qed.

Lemma plant_one_adds (m : Model) (i : Z) :
  m = createModelFromFile "models/park/plant/plant-1.obj" ->
  adds (plant_one m i) 1 1 [] is_plant.
Proof.
  intros ->. run_builder.
  close_adds ltac:(unfold is_plant; cbn; repeat split; auto using Hblank).
Qed.

Lemma range_length (lo : Z) (n : nat) :
  length (map (fun k => lo + k) (zseq n)) = n.
Proof. unfold zseq. now rewrite !length_map, length_seq. Qed.

Lemma loadBushObjects_adds : adds loadBushObjects 84 84 [] is_bush.
Proof.
  exact (adds_for_each
           (map (fun n => -10 + n) (zseq (Z.to_nat (10 - -10 + 1))))
           (bush_row (createModelFromFile "models/park/bush/bush-1.obj"))
           (fun i => bush_row_adds i eq_refl)).
Qed.

Lemma loadPlantObjects_build (b : Builder) :
  build loadPlantObjects b =
  build (for_lt 0 (numPlants_of (rand_seq 0))
           (plant_one (createModelFromFile "models/park/plant/plant-1.obj")))
        (mkBuilder (b_gameObjects b) (b_created b) 1).
Proof. reflexivity. Qed.

Lemma loadPlantObjects_adds :
  adds loadPlantObjects (Z.to_nat (numPlants_of (rand_seq 0)))
       (Z.to_nat (numPlants_of (rand_seq 0))) [] is_plant.
Proof.
  intros b Hb. rewrite loadPlantObjects_build. unfold for_lt.
  pose proof (adds_for_each
                (map (fun n => 0 + n)
                     (zseq (Z.to_nat (numPlants_of (rand_seq 0) - 0))))
                (plant_one
                   (createModelFromFile "models/park/plant/plant-1.obj"))
                (fun i => plant_one_adds i eq_refl)) as H.
  rewrite range_length, Z.sub_0_r, Nat.mul_1_r in H. rewrite Z.sub_0_r.
  exact (H (mkBuilder (b_gameObjects b) (b_created b) 1) Hb).
Qed.

Lemma plant_one_rand (m : Model) (i : Z) (b : Builder) :
  b_rand (build (plant_one m i) b) = (b_rand b + 3)%nat.
Proof. cbn. lia. Qed.

Lemma plants_rand (m : Model) (l : list Z) (b : Builder) :
  b_rand (build (for_each l (plant_one m)) b)
  = (b_rand b + 3 * length l)%nat.
Proof.
  revert b. induction l as [|i l IH]; intros b.
  - cbn. lia.
  - cbn [for_each]. rewrite build_seq, IH, plant_one_rand. cbn [length]. lia.
Qed.

Lemma numPlants_bounds (r : Z) : 0 <= r -> 8 <= numPlants_of r <= 15.
Proof.
  intros H. unfold numPlants_of.
  pose proof (Z.rem_bound_pos r 8 H ltac:(lia)). lia.
Qed.

Lemma is_bush_mesh (o : LveGameObject) : is_bush o -> mesh_or_light o.
Proof. intros (Hm & Hl & _). left. split; [congruence | exact Hl]. Qed.

Lemma is_plant_mesh (o : LveGameObject) : is_plant o -> mesh_or_light o.
Proof. intros (Hm & Hl & _). left. split; [congruence | exact Hl]. Qed.

Lemma builder_init_keyed (c : nat) : well_keyed (builder_init c).
Proof. split; [constructor | intros n _ []]. Qed.

Lemma FirstApp1_adds : adds FirstApp1 4 4 [solar_light] mesh_or_light.
Proof.
  exact (adds_seq loadGameObjects1_adds
           (adds_seq loadBenchObjects1_adds loadSolarLight_adds)).
Qed.

Lemma FirstApp2_adds :
  let n := Z.to_nat (numPlants_of (rand_seq 0)) in
  adds FirstApp2 (90 + n - 1) (90 + n) [solar_light] mesh_or_light.
Proof.
  intros n.
  pose proof
    (adds_seq loadGameObjects2_adds
       (adds_seq loadTreeObjects2_adds
          (adds_seq loadBenchObjects2_adds
             (adds_seq (adds_weaken _ is_bush_mesh loadBushObjects_adds)
                (adds_seq loadSolarLight_adds
                   (adds_weaken _ is_plant_mesh loadPlantObjects_adds))))))
    as H.
  fold n in H. cbn [app] in H.
  replace (90 + n - 1)%nat with (2 + (1 + (1 + (84 + (1 + n)))))%nat by lia.
  replace (90 + n)%nat with (2 + (2 + (1 + (84 + (1 + n)))))%nat by lia.
  exact H.
Qed.

(** X9.  [loadBushObjects] runs its loop for the 21 values of [i] from
    -10 to 10 and registers four bushes in each round: with unique
    identifiers it appends exactly 84 entities, all with the one bush
    mesh, without a light, scaled [{.5f, 1.f, .5f}] and placed on one of
    the four sides x = -10, x = 10, z = 9.7, z = -9.7; nothing that was
    registered before is changed. *)
Theorem loadBushObjects_appends_84 (b : Builder) :
  well_keyed b ->
  let b' := build loadBushObjects b in
  exists added,
    b_gameObjects b' = b_gameObjects b ++ added
    /\ length added = 84%nat
    /\ Forall (fun kv => is_bush (snd kv)) added
    /\ scene_lights added = []
    /\ b_created b' = (b_created b + 84)%nat
    /\ NoDup (map fst (b_gameObjects b')).
Proof.
  intros Hb b'. subst b'.
  destruct (loadBushObjects_adds Hb) as (K & C & a & E & L & S' & HP).
  exists a. repeat split; auto. apply K.
Qed.

(** X10.  [loadPlantObjects] draws the number of plants as 8 plus the
    first random value modulo 8: for a random value that is not
    negative this is between 8 and 15, as the comment in the source
    says, and with unique identifiers exactly that many plants are
    appended, each with the plant mesh, no light, height [.5f] and a
    uniform scale; one random value is used for the count and three for
    each plant. *)
Theorem loadPlantObjects_between_8_and_15 (b : Builder) :
  well_keyed b ->
  0 <= rand_seq 0 ->
  let n := numPlants_of (rand_seq 0) in
  let b' := build loadPlantObjects b in
  8 <= n <= 15
  /\ (exists added,
        b_gameObjects b' = b_gameObjects b ++ added
        /\ Z.of_nat (length added) = n
        /\ Forall (fun kv => is_plant (snd kv)) added)
  /\ b_created b' = (b_created b + Z.to_nat n)%nat
  /\ b_rand b' = (1 + 3 * Z.to_nat n)%nat.
Proof.
  intros Hb Hr n b'. subst b'.
  pose proof (numPlants_bounds Hr) as Hn. fold n in Hn.
  split; [exact Hn|].
  destruct (loadPlantObjects_adds Hb) as (K & C & a & E & L & S' & HP).
  fold n in C, L. split; [|split].
  - exists a. repeat split; auto. rewrite L. lia.
  - exact C.
  - rewrite loadPlantObjects_build. unfold for_lt.
    rewrite plants_rand, range_length. cbn [b_rand]. fold n.
    rewrite Z.sub_0_r. lia.
Qed.

(** X11.  [loadTreeObjects] of the second listing creates two objects
    but registers only the second, the one with the [tree01.obj] mesh:
    the object set up with [3Trees.obj] uses up an identifier and never
    reaches the registry. *)
Theorem loadTreeObjects2_registers_second_only (b : Builder) :
  well_keyed b ->
  let b' := build loadTreeObjects2 b in
  let c := b_created b in
  (exists o,
      b_gameObjects b' = b_gameObjects b ++ [(id_nth (Datatypes.S c), o)]
      /\ model o
         = Some (createModelFromFile "models/park/Tree01/tree01.obj"))
  /\ ~ In (id_nth c) (map fst (b_gameObjects b'))
  /\ b_created b' = (c + 2)%nat.
Proof.
  intros Hb b' c. subst b' c. unfold well_keyed in Hb.
  pose proof (proj2 Hb (b_created b) (Nat.le_refl _)) as Hfree.
  apply keyed_skip in Hb.
  cbn -[emplace createModelFromFile flit] in *.
  emplace_step. split; [|split].
  - eexists. split; reflexivity.
  - rewrite map_app. cbn. intros Hin. apply in_app_or in Hin.
    destruct Hin as [Hin|[E|[]]]; [exact (Hfree Hin)|].
    apply Hids in E. lia.
  - lia.
Qed.

(** X12.  The constructor of the second listing, started on an empty
    registry with unique identifiers and a random value that is not
    negative, registers 89 entities plus the plants, between 97 and 104
    in all, under distinct identifiers; exactly one of them carries a
    light, the one of [loadSolarLight] at [{-2.f, -30.f, -5.f}] with
    colour [{1.f, 0.5f, 0.f}] and intensity [350.2f]; every entity
    carries either a mesh or a light, never both, never neither. *)
Theorem FirstApp2_scene (c : nat) :
  0 <= rand_seq 0 ->
  let b' := build FirstApp2 (builder_init c) in
  let n := numPlants_of (rand_seq 0) in
  Z.of_nat (length (b_gameObjects b')) = 89 + n
  /\ 97 <= Z.of_nat (length (b_gameObjects b')) <= 104
  /\ scene_lights (b_gameObjects b') = [solar_light]
  /\ NoDup (map fst (b_gameObjects b'))
  /\ Forall (fun kv => mesh_or_light (snd kv)) (b_gameObjects b')
  /\ b_created b' = (c + 90 + Z.to_nat n)%nat.
Proof.
  intros Hr b' n. subst b'.
  pose proof (numPlants_bounds Hr) as Hn. fold n in Hn.
  destruct (FirstApp2_adds (builder_init_keyed c))
    as (K & C & a & E & L & S' & HP).
  cbn [builder_init b_gameObjects b_created app] in *. fold n in C, L.
  assert (Hlen : Z.of_nat (length a) = 89 + n) by (rewrite L; lia).
  split; [rewrite E; exact Hlen|]. split; [rewrite E; lia|].
  split; [rewrite E; exact S'|]. split; [apply K|].
  split; [rewrite E; exact HP|]. rewrite C. lia.
Qed.

(** X13.  The constructor of the first listing, started on an empty
    registry with unique identifiers, registers four entities under
    distinct identifiers: three with a mesh and the one light of
    [loadSolarLight]. *)
Theorem FirstApp1_scene (c : nat) :
  let b' := build FirstApp1 (builder_init c) in
  length (b_gameObjects b') = 4%nat
  /\ scene_lights (b_gameObjects b') = [solar_light]
  /\ NoDup (map fst (b_gameObjects b'))
  /\ Forall (fun kv => mesh_or_light (snd kv)) (b_gameObjects b')
  /\ b_created b' = (c + 4)%nat.
Proof.
  intros b'. subst b'.
  destruct (FirstApp1_adds (builder_init_keyed c))
    as (K & C & a & E & L & S' & HP).
  cbn [builder_init b_gameObjects b_created app] in *.
  split; [rewrite E; exact L|]. split; [rewrite E; exact S'|].
  split; [apply K|]. split; [rewrite E; exact HP | exact C].
Qed.

End SceneProperties.

(** * More properties of the frame loop *)

Section LoopProperties.

Context {T : Carriers} {X : Externals}.

Lemma phase_after_app (p : Phase) (a b : list Event) :
  phase_after p (a ++ b) =
  match phase_after p a with
  | Some q => phase_after q b
  | None => None
  end.
Proof.
  revert p. induction a as [|e a IH]; intros p; cbn.
  - reflexivity.
  - destruct (phase_step p e); [apply IH | reflexivity].
Qed.

Lemma iteration_phase (i : Input) (w : World) :
  phase_after Idle (iteration_events i w) = Some Idle.
Proof.
  unfold iteration_events. destruct (in_frame i); reflexivity.
Qed.

Lemma loop_phase (ins : list Input) (w : World) :
  phase_after Idle (trace w) = Some Idle ->
  phase_after Idle (trace (exec (loop ins) w)) = Some Idle.
Proof.
  revert w. induction ins as [|i rest IH]; intros w H.
  - exact H.
  - rewrite loop_cons. apply IH.
    rewrite iteration_trace, phase_after_app, H. apply iteration_phase.
Qed.

(** X1.  The calls of any run follow the frame protocol: the camera and
    the clock are only touched outside a frame; inside a frame the
    block is written and flushed before the render pass begins, render
    calls occur only inside the pass, and the frame is ended before the
    next iteration; [vkDeviceWaitIdle] is called once, last, outside any
    frame. *)
Theorem run_follows_frame_protocol (app : Map) (r : LveRenderer) (t0 : Z)
  (ins : list Input) :
  phase_after Idle (trace (run app r t0 ins)) = Some Stopped
  /\ exists t, trace (run app r t0 ins) = t ++ [EvDeviceWaitIdle]
               /\ phase_after Idle t = Some Idle.
Proof.
  assert (H : phase_after Idle (trace (exec (loop ins) (run_setup app r t0)))
              = Some Idle) by (apply loop_phase; reflexivity).
  rewrite run_trace. split.
  - rewrite phase_after_app, H. reflexivity.
  - eexists. split; [reflexivity | exact H].
Qed.

Lemma last_cons {A : Type} (l : list A) (a d : A) :
  last (a :: l) d = last l a.
Proof.
  revert a d. induction l as [|b l IH]; intros a d.
  - reflexivity.
  - change (last (a :: b :: l) d) with (last (b :: l) d).
    now rewrite !IH.
Qed.

Lemma durations_sum (nows : list Z) (t0 : Z) :
  zsum (durations t0 nows) = last nows t0 - t0.
Proof.
  revert t0. induction nows as [|n rest IH]; intros t0.
  - cbn. lia.
  - cbn [durations zsum fold_right]. fold (zsum (durations n rest)).
    rewrite IH, last_cons. lia.
Qed.

Lemma durations_length (nows : list Z) (t0 : Z) :
  length (durations t0 nows) = length nows.
Proof.
  revert t0. induction nows as [|n rest IH]; intros t0; cbn; auto.
Qed.

Lemma loop_currentTime (ins : list Input) (w : World) :
  currentTime (exec (loop ins) w) = last (map in_now ins) (currentTime w).
Proof.
  revert w. induction ins as [|i rest IH]; intros w.
  - reflexivity.
  - rewrite loop_cons, IH.
    destruct (iteration_camera i w) as (_ & _ & Ht & _). rewrite Ht.
    cbn [map]. now rewrite last_cons.
Qed.

(** X2.  Over a whole run the clock differences handed out as frame
    times, one for each iteration, add up to the time between the
    reading taken before the loop and the reading of the last iteration,
    skipped iterations included: no interval is lost or counted twice.
    [currentTime] ends as the last reading. *)
Theorem frame_times_sum_to_elapsed (app : Map) (r : LveRenderer) (t0 : Z)
  (ins : list Input) :
  let nows := map in_now ins in
  currentTime (run app r t0 ins) = last nows t0
  /\ zsum (durations t0 nows) = currentTime (run app r t0 ins) - t0
  /\ frameTimes (trace (run app r t0 ins)) = map toSeconds (durations t0 nows)
  /\ length (durations t0 nows) = length ins.
Proof.
  intros nows.
  assert (E : currentTime (run app r t0 ins) = last nows t0).
  { rewrite run_unfold. cbn [exec emit snd currentTime].
    rewrite loop_currentTime. reflexivity. }
  split; [exact E|]. split; [|split].
  - rewrite E. apply durations_sum.
  - rewrite run_trace, frameTimes_app, loop_frameTimes. cbn.
    now rewrite app_nil_r.
  - subst nows. now rewrite durations_length, length_map.
Qed.

Lemma vec_set_other {A : Type} (l : list A) (k j : nat) (a : A) :
  j <> k -> nth_error (vec_set l k a) j = nth_error l j.
Proof.
  revert k j. induction l as [|h t IH]; intros [|k] [|j] H; cbn;
    try reflexivity; try congruence.
  apply IH. congruence.
Qed.

Lemma vec_apply_other {A : Type} (f : A -> A) (l : list A) (k j : nat) :
  j <> k -> nth_error (vec_apply f l k) j = nth_error l j.
Proof.
  intros H. unfold vec_apply. destruct (nth_error l k); [|reflexivity].
  now apply vec_set_other.
Qed.

(** X3.  A rendered frame touches only the buffer of its own slot:
    every other slot of [uboBuffers] holds after the iteration what it
    held before, and the number of buffers does not change. *)
Theorem frame_writes_only_its_slot (i : Input) (w : World) (j : nat) :
  in_frame i = true ->
  j <> Z.to_nat (currentFrameIndex (lveRenderer w)) ->
  nth_error (uboBuffers (exec (iteration i) w)) j
  = nth_error (uboBuffers w) j
  /\ length (uboBuffers (exec (iteration i) w)) = length (uboBuffers w).
Proof.
  intros E H. rewrite (iteration_rendered i w E). cbn. split.
  - now rewrite !vec_apply_other.
  - now rewrite !vec_apply_length.
Qed.

Lemma Forall_vec_set {A : Type} (P : A -> Prop) (l : list A) (k : nat)
  (a : A) :
  Forall P l -> P a -> Forall P (vec_set l k a).
Proof.
  intros Hl Ha. revert k. induction Hl as [|h t Hh Ht IH]; intros [|k];
    cbn; constructor; auto.
Qed.

Lemma vec_set_twice {A : Type} (l : list A) (k : nat) (a b : A) :
  vec_set (vec_set l k a) k b = vec_set l k b.
Proof.
  revert k. induction l as [|h t IH]; intros [|k]; cbn; try reflexivity.
  now rewrite IH.
Qed.

Lemma upload_flushed (bs : list LveBuffer) (k : nat) (u : GlobalUbo) :
  Forall flushed bs ->
  Forall flushed (vec_apply flush (vec_apply (writeToBuffer u) bs k) k).
Proof.
  intros H. unfold vec_apply at 2. destruct (nth_error bs k) as [b|] eqn:E.
  - unfold vec_apply.
    rewrite vec_set_same by (apply nth_error_Some; congruence).
    rewrite vec_set_twice. apply Forall_vec_set; [exact H | reflexivity].
  - unfold vec_apply. rewrite E. exact H.
Qed.

Lemma loop_flushed (ins : list Input) (w : World) :
  Forall flushed (uboBuffers w) ->
  Forall flushed (uboBuffers (exec (loop ins) w)).
Proof.
  revert w. induction ins as [|i rest IH]; intros w H.
  - exact H.
  - rewrite loop_cons. apply IH. destruct (in_frame i) eqn:E.
    + rewrite (iteration_rendered i w E). cbn. now apply upload_flushed.
    + now rewrite (iteration_skipped i w E).
Qed.

(** X4.  At the end of any run, and so between any two iterations,
    every uniform buffer has been flushed since it was last written:
    what the device sees in each slot is what the host wrote there
    last. *)
Theorem buffers_flushed_after_run (app : Map) (r : LveRenderer) (t0 : Z)
  (ins : list Input) :
  Forall flushed (uboBuffers (run app r t0 ins))
  /\ length (uboBuffers (run app r t0 ins))
     = Z.to_nat MAX_FRAMES_IN_FLIGHT.
Proof.
  rewrite run_unfold. cbn [exec emit snd uboBuffers]. split.
  - apply loop_flushed. cbn. apply Forall_forall.
    intros b Hb. apply repeat_spec in Hb. subst b. reflexivity.
  - rewrite loop_buffers_length. cbn. apply repeat_length.
Qed.

(** X5.  With at least one frame in flight and a newly constructed
    renderer, every slot index that a run reads lies in [0, N) and
    inside [uboBuffers]: the accesses [uboBuffers[frameIndex]] and
    [globalDescriptorSets[frameIndex]] are never out of range. *)
Theorem slot_index_within_buffers (app : Map) (t0 : Z) (ins : list Input) :
  0 < MAX_FRAMES_IN_FLIGHT ->
  Forall (fun k => 0 <= k < MAX_FRAMES_IN_FLIGHT
                   /\ (Z.to_nat k
                       < length (uboBuffers (run app renderer_init t0 ins)))%nat)
         (slots (trace (run app renderer_init t0 ins))).
Proof. apply loop_slot_in_range. Qed.

Lemma iteration_uploads (i : Input) (w : World) :
  uploads (iteration_events i w)
  = if in_frame i
    then [(currentFrameIndex (lveRenderer w), ubo_of i w)]
    else [].
Proof.
  unfold iteration_events. rewrite uploads_app.
  destruct (in_frame i); reflexivity.
Qed.

Lemma iteration_slots (i : Input) (w : World) :
  slots (iteration_events i w)
  = if in_frame i then [currentFrameIndex (lveRenderer w)] else [].
Proof.
  unfold iteration_events. rewrite slots_app.
  destruct (in_frame i); reflexivity.
Qed.

Lemma loop_uploads_slots (ins : list Input) (w : World) :
  map fst (uploads (trace w)) = slots (trace w) ->
  map fst (uploads (trace (exec (loop ins) w)))
  = slots (trace (exec (loop ins) w)).
Proof.
  revert w. induction ins as [|i rest IH]; intros w H.
  - exact H.
  - rewrite loop_cons. apply IH.
    rewrite iteration_trace, uploads_app, slots_app, map_app, H.
    f_equal. rewrite iteration_uploads, iteration_slots.
    destruct (in_frame i); reflexivity.
Qed.

Lemma loop_uploads_count (ins : list Input) (w : World) :
  length (uploads (trace (exec (loop ins) w)))
  = (length (uploads (trace w)) + begun ins)%nat.
Proof.
  revert w. induction ins as [|i rest IH]; intros w.
  - cbn. lia.
  - rewrite loop_cons, IH, iteration_trace, uploads_app, length_app.
    rewrite iteration_uploads, begun_cons.
    destruct (in_frame i); cbn; lia.
Qed.

(** X6.  Over a whole run there is one upload for each begun frame, and
    each upload goes to the buffer of the slot index that was read in
    its frame, whatever the state of the renderer at the start. *)
Theorem uploads_go_to_the_slot_read (app : Map) (r : LveRenderer) (t0 : Z)
  (ins : list Input) :
  map fst (uploads (trace (run app r t0 ins)))
  = slots (trace (run app r t0 ins))
  /\ length (uploads (trace (run app r t0 ins))) = begun ins.
Proof.
  rewrite run_trace, uploads_app, slots_app. cbn. rewrite !app_nil_r.
  split.
  - apply loop_uploads_slots. reflexivity.
  - rewrite loop_uploads_count. reflexivity.
Qed.

Lemma loop_uploads_lights (ins : list Input) (w : World)
  (ls : list PointLight) :
  ls = firstn MAX_LIGHTS (scene_lights (app_gameObjects w)) ->
  Forall (fun ku => pointLights (snd ku) = ls
                    /\ numLights (snd ku) = Z.of_nat (length ls))
         (uploads (trace w)) ->
  Forall (fun ku => pointLights (snd ku) = ls
                    /\ numLights (snd ku) = Z.of_nat (length ls))
         (uploads (trace (exec (loop ins) w))).
Proof.
  revert w. induction ins as [|i rest IH]; intros w Hls H.
  - exact H.
  - rewrite loop_cons. apply IH.
    + destruct (iteration_camera i w) as (_ & _ & _ & Hg). now rewrite Hg.
    + rewrite iteration_trace, uploads_app. apply Forall_app.
      split; [exact H|]. rewrite iteration_uploads.
      destruct (in_frame i); repeat constructor; cbn; now rewrite Hls.
Qed.

Lemma run_uploads_lights (app : Map) (r : LveRenderer) (t0 : Z)
  (ins : list Input) :
  let ls := firstn MAX_LIGHTS (scene_lights app) in
  Forall (fun ku => pointLights (snd ku) = ls
                    /\ numLights (snd ku) = Z.of_nat (length ls))
         (uploads (trace (run app r t0 ins))).
Proof.
  intros ls. rewrite run_trace, uploads_app. cbn. rewrite app_nil_r.
  apply loop_uploads_lights; [reflexivity | constructor].
Qed.

End LoopProperties.

(** * The registry under [emplace] *)

Section RegistryProperties.

Context {T : Carriers}.

Lemma contains_true_iff (m : Map) (k : id_t) :
  contains m k = true <-> In k (map fst m).
Proof.
  unfold contains. rewrite existsb_exists, in_map_iff. split.
  - intros (kv & Hin & E). apply Z.eqb_eq in E. now exists kv.
  - intros (kv & E & Hin). exists kv. split; [exact Hin|].
    now apply Z.eqb_eq.
Qed.

Lemma emplace_tail (m : Map) (k : id_t) (o : LveGameObject) :
  exists tail, emplace m k o = m ++ tail
               /\ incl tail [(k, o)] /\ (length tail <= 1)%nat.
Proof.
  unfold emplace. destruct (contains m k).
  - exists []. rewrite app_nil_r. repeat split; [apply incl_nil_l | cbn; lia].
  - exists [(k, o)]. repeat split; [apply incl_refl | cbn; lia].
Qed.

Lemma emplace_NoDup (m : Map) (k : id_t) (o : LveGameObject) :
  NoDup (map fst m) -> NoDup (map fst (emplace m k o)).
Proof.
  intros H. unfold emplace. destruct (contains m k) eqn:E; [exact H|].
  rewrite map_app. cbn. apply NoDup_app.
  - exact H.
  - repeat constructor. intros [].
  - intros k' Hk [<-|[]].
    apply contains_true_iff in Hk. congruence.
Qed.

Lemma emplace_registers (m : Map) (k : id_t) (o : LveGameObject) :
  In k (map fst (emplace m k o))
  /\ incl (map fst m) (map fst (emplace m k o)).
Proof.
  unfold emplace. destruct (contains m k) eqn:E.
  - split; [now apply contains_true_iff | apply incl_refl].
  - rewrite map_app. split.
    + apply in_or_app. right. now left.
    + apply incl_appl, incl_refl.
Qed.

Lemma emplace_all_cons (m : Map) (kv : id_t * LveGameObject)
  (kvs : list (id_t * LveGameObject)) :
  emplace_all m (kv :: kvs) = emplace_all (emplace m (fst kv) (snd kv)) kvs.
Proof. reflexivity. Qed.

Lemma emplace_all_tail (kvs : list (id_t * LveGameObject)) (m : Map) :
  exists added, emplace_all m kvs = m ++ added /\ incl added kvs.
Proof.
  revert m. induction kvs as [|[k o] kvs IH]; intros m.
  - exists []. rewrite app_nil_r. split; [reflexivity | apply incl_nil_l].
  - rewrite emplace_all_cons. cbn [fst snd].
    destruct (emplace_tail m k o) as (t1 & E1 & I1 & _).
    destruct (IH (emplace m k o)) as (t2 & E2 & I2).
    exists (t1 ++ t2). split.
    + rewrite E2, E1. now rewrite app_assoc.
    + apply incl_app.
      * intros a Ha. apply I1 in Ha. destruct Ha as [<-|[]]. now left.
      * now apply incl_tl.
Qed.

Lemma emplace_all_NoDup (kvs : list (id_t * LveGameObject)) (m : Map) :
  NoDup (map fst m) -> NoDup (map fst (emplace_all m kvs)).
Proof.
  revert m. induction kvs as [|[k o] kvs IH]; intros m H.
  - exact H.
  - rewrite emplace_all_cons. apply IH. now apply emplace_NoDup.
Qed.

Lemma emplace_all_registers (kvs : list (id_t * LveGameObject)) (m : Map) :
  incl (map fst m ++ map fst kvs) (map fst (emplace_all m kvs)).
Proof.
  revert m. induction kvs as [|[k o] kvs IH]; intros m.
  - cbn. rewrite app_nil_r. apply incl_refl.
  - rewrite emplace_all_cons. cbn [fst snd map].
    destruct (emplace_registers m k o) as [Hk Hm].
    intros a Ha. apply IH. apply in_app_or in Ha.
    destruct Ha as [Ha|[<-|Ha]].
    + apply in_or_app. left. now apply Hm.
    + apply in_or_app. now left.
    + apply in_or_app. now right.
Qed.

(** X7.  [emplace] keeps the identifiers of the registry unique whatever
    is inserted, never removes, replaces or moves an entity that is
    registered, and leaves every inserted identifier registered. *)
Theorem emplace_keeps_ids_unique (m : Map)
  (kvs : list (id_t * LveGameObject)) :
  NoDup (map fst m) ->
  NoDup (map fst (emplace_all m kvs))
  /\ (exists added, emplace_all m kvs = m ++ added /\ incl added kvs)
  /\ incl (map fst m ++ map fst kvs) (map fst (emplace_all m kvs)).
Proof.
  intros H. split; [now apply emplace_all_NoDup|].
  split; [apply emplace_all_tail | apply emplace_all_registers].
Qed.

(** X8.  Filling an empty registry keeps every inserted object exactly
    when the inserted identifiers are pairwise distinct: an object whose
    identifier is already registered is dropped without notice. *)
Theorem emplace_loses_nothing_iff_unique
  (kvs : list (id_t * LveGameObject)) :
  (length (emplace_all [] kvs) = length kvs <-> NoDup (map fst kvs))
  /\ (length (emplace_all [] kvs) <= length kvs)%nat.
Proof.
  destruct (emplace_all_tail kvs []) as (a & E & I).
  pose proof (@emplace_all_NoDup kvs [] (NoDup_nil _)) as Hn.
  assert (Hle : (length (emplace_all [] kvs) <= length kvs)%nat).
  { rewrite <- (length_map fst (emplace_all [] kvs)).
    rewrite <- (length_map fst kvs).
    apply NoDup_incl_length; [exact Hn|].
    rewrite E. cbn. now apply incl_map. }
  split; [|exact Hle]. split.
  - intros Hlen.
    apply (NoDup_incl_NoDup (l := map fst (emplace_all [] kvs))).
    + exact Hn.
    + rewrite !length_map. lia.
    + rewrite E. cbn. now apply incl_map.
  - intros H. now rewrite emplace_all_fresh.
Qed.

End RegistryProperties.

(** * The scene construction when identifiers may clash *)

Section SceneGrowth.

Context {T : Carriers} {SE : SceneExternals}.

Lemma extends_seq (c1 c2 : B unit) (n1 n2 : nat) :
  extends c1 n1 -> extends c2 n2 ->
  extends (bbind c1 (fun _ => c2)) (n1 + n2).
Proof.
  intros H1 H2 b. rewrite build_seq.
  destruct (H1 b) as (a1 & E1 & L1).
  destruct (H2 (build c1 b)) as (a2 & E2 & L2).
  exists (a1 ++ a2). split.
  - rewrite E2, E1. now rewrite app_assoc.
  - rewrite length_app. lia.
Qed.

Lemma extends_for_each {A : Type} (l : list A) (body : A -> B unit)
  (n : nat) :
  (forall a, extends (body a) n) ->
  extends (for_each l body) (length l * n).
Proof.
  intros H. induction l as [|a l IH].
  - intros b. exists []. cbn. now rewrite app_nil_r.
  - cbn [for_each length Nat.mul]. apply (extends_seq (H a) IH).
Qed.

Ltac tail_step :=
  match goal with
  | |- context [emplace ?m ?k ?o] =>
      let tl := fresh "tl" in
      let E := fresh "E" in
      let L := fresh "L" in
      destruct (emplace_tail m k o) as (tl & E & _ & L); rewrite E; clear E
  end.

Ltac grow :=
  intros b; cbn -[emplace createModelFromFile flit];
  repeat tail_step;
  eexists; split; [rewrite <- ?app_assoc; reflexivity|];
  rewrite ?length_app; cbn;
  repeat match goal with
         | L : (length ?t <= 1)%nat |- _ => revert L; generalize (length t)
         end;
  clear; intros; lia.

Lemma loadGameObjects2_extends : extends loadGameObjects2 2.
Proof. grow. Qed.

Lemma loadGameObjects1_extends : extends loadGameObjects1 2.
Proof. grow. Qed.

Lemma loadTreeObjects2_extends : extends loadTreeObjects2 1.
Proof. grow. Qed.

Lemma loadBenchObjects1_extends : extends loadBenchObjects1 1.
Proof. grow. Qed.

Lemma loadBenchObjects2_extends : extends loadBenchObjects2 1.
Proof. grow. Qed.

Lemma loadSolarLight_extends : extends loadSolarLight 1.
Proof. grow. Qed.

Lemma bush_row_extends (m : Model) (i : Z) : extends (bush_row m i) 4.
Proof. grow. Qed.

Lemma plant_one_extends (m : Model) (i : Z) : extends (plant_one m i) 1.
Proof. grow. Qed.

Lemma loadBushObjects_extends : extends loadBushObjects 84.
Proof.
  exact (extends_for_each
           (map (fun n => -10 + n) (zseq (Z.to_nat (10 - -10 + 1))))
           (bush_row (createModelFromFile "models/park/bush/bush-1.obj"))
           (bush_row_extends _)).
Qed.

Lemma loadPlantObjects_extends :
  extends loadPlantObjects (Z.to_nat (numPlants_of (rand_seq 0))).
Proof.
  intros b.
  pose proof (extends_for_each
                (map (fun n => 0 + n)
                     (zseq (Z.to_nat (numPlants_of (rand_seq 0) - 0))))
                (plant_one
                   (createModelFromFile "models/park/plant/plant-1.obj"))
                (plant_one_extends _)) as H.
  rewrite range_length, Z.sub_0_r, Nat.mul_1_r in H.
  change (build loadPlantObjects b)
    with (build (for_lt 0 (numPlants_of (rand_seq 0))
                   (plant_one
                      (createModelFromFile "models/park/plant/plant-1.obj")))
                (mkBuilder (b_gameObjects b) (b_created b) 1)).
  unfold for_lt. rewrite Z.sub_0_r.
  exact (H (mkBuilder (b_gameObjects b) (b_created b) 1)).
Qed.

Lemma numPlants_at_most_15 (r : Z) : (Z.to_nat (numPlants_of r) <= 15)%nat.
Proof.
  unfold numPlants_of.
  pose proof (Z.rem_bound_abs r 8 ltac:(lia)). lia.
Qed.

(** X14.  Whatever identifiers the created objects get, repeated or
    already registered, and whatever values [rand()] returns, both
    constructors only append to the registry: every entity registered
    before is still there, unchanged and at its place, and at most 4
    (first listing) or 104 (second listing) entities are added. *)
Theorem constructors_only_append (b : Builder) :
  (exists added,
      b_gameObjects (build FirstApp1 b) = b_gameObjects b ++ added
      /\ (length added <= 4)%nat)
  /\ (exists added,
        b_gameObjects (build FirstApp2 b) = b_gameObjects b ++ added
        /\ (length added <= 104)%nat).
Proof.
  split.
  - exact (extends_seq loadGameObjects1_extends
             (extends_seq loadBenchObjects1_extends loadSolarLight_extends)
             b).
  - destruct (extends_seq loadGameObjects2_extends
               (extends_seq loadTreeObjects2_extends
                  (extends_seq loadBenchObjects2_extends
                     (extends_seq loadBushObjects_extends
                        (extends_seq loadSolarLight_extends
                           loadPlantObjects_extends)))) b)
      as (a & E & L).
    exists a. split; [exact E|].
    pose proof (numPlants_at_most_15 (rand_seq 0)). lia.
Qed.

End SceneGrowth.

(** * The constructed scene in the frame loop *)

Section SceneInLoop.

Context {T : Carriers} {X : Externals} {SE : SceneExternals}.

Hypothesis Hids : unique_ids.
Hypothesis Hblank : pointLight blank = None.
Hypothesis Hmesh : model blank = None.

(** X15.  With room for at least one light, every block that a run
    uploads over the scene of either constructor carries exactly one
    light descriptor, the one of [loadSolarLight]: position [{-2.f,
    -30.f, -5.f}], colour [{1.f, 0.5f, 0.f}], intensity [350.2f]. *)
Theorem constructed_scene_uploads_one_light (c : nat) (r : LveRenderer)
  (t0 : Z) (ins : list Input) :
  (1 <= MAX_LIGHTS)%nat ->
  let scene1 := b_gameObjects (build FirstApp1 (builder_init c)) in
  let scene2 := b_gameObjects (build FirstApp2 (builder_init c)) in
  Forall (fun ku => pointLights (snd ku) = [solar_light]
                    /\ numLights (snd ku) = 1)
         (uploads (trace (run scene1 r t0 ins)))
  /\ Forall (fun ku => pointLights (snd ku) = [solar_light]
                       /\ numLights (snd ku) = 1)
            (uploads (trace (run scene2 r t0 ins))).
Proof.
  intros HM scene1 scene2.
  assert (F1 : firstn MAX_LIGHTS [solar_light] = [solar_light]).
  { destruct MAX_LIGHTS as [|n]; [lia|]. cbn. now rewrite firstn_nil. }
  assert (L1 : scene_lights scene1 = [solar_light]).
  { destruct (FirstApp1_adds Hids Hblank Hmesh (builder_init_keyed c))
      as (_ & _ & a & E & _ & S' & _).
    subst scene1. rewrite E. exact S'. }
  assert (L2 : scene_lights scene2 = [solar_light]).
  { destruct (FirstApp2_adds Hids Hblank Hmesh (builder_init_keyed c))
      as (_ & _ & a & E & _ & S' & _).
    subst scene2. rewrite E. exact S'. }
  split.
  - pose proof (run_uploads_lights scene1 r t0 ins) as H. cbn zeta in H.
    rewrite L1, F1 in H. exact H.
  - pose proof (run_uploads_lights scene2 r t0 ins) as H. cbn zeta in H.
    rewrite L2, F1 in H. exact H.
Qed.

End SceneInLoop.

(** ** The further properties on the small instance *)

Example demo_second_scene_size :
  length (b_gameObjects
            (build (FirstApp2 (S := demo_builder)) (builder_init 0)))
  = 102%nat.
Proof. vm_compute. reflexivity. Qed.

Example demo_clash_drops_floor :
  length (b_gameObjects
            (build (FirstApp1 (S := demo_builder)) demo_clash))
  = 4%nat.
Proof. vm_compute. reflexivity. Qed.

Lemma frame_writes_only_its_slot_witness :
  in_frame (demo_frame 16) = true
  /\ 1%nat <> Z.to_nat (currentFrameIndex (lveRenderer demo_world))
  /\ nth_error
       (uboBuffers (exec (iteration (X := demo) (demo_frame 16)) demo_world))
       1
     = nth_error (uboBuffers demo_world) 1.
Proof.
  assert (H1 : in_frame (demo_frame 16) = true) by reflexivity.
  assert (H2 : 1%nat <> Z.to_nat (currentFrameIndex (lveRenderer demo_world)))
    by (simpl; lia).
  split; [exact H1|]. split; [exact H2|].
  apply (frame_writes_only_its_slot (X := demo) (demo_frame 16) demo_world
           H1 H2).
Defined.

Lemma slot_index_within_buffers_witness :
  0 < MAX_FRAMES_IN_FLIGHT (Externals := demo)
  /\ Forall (fun k => 0 <= k < 2)
            (slots (trace (run (X := demo) demo_scene renderer_init 0
                               demo_inputs))).
Proof.
  assert (H : 0 < MAX_FRAMES_IN_FLIGHT (Externals := demo)) by (simpl; lia).
  split; [exact H|].
  apply (Forall_impl _ (fun k Hk => proj1 Hk)
           (slot_index_within_buffers (X := demo) demo_scene 0 demo_inputs H)).
Defined.

Lemma emplace_keeps_ids_unique_witness :
  NoDup (map fst demo_scene)
  /\ NoDup (map fst (emplace_all demo_scene demo_scene)).
Proof.
  assert (H : NoDup (map fst demo_scene))
    by (repeat constructor; simpl; lia).
  split; [exact H|].
  apply (emplace_keeps_ids_unique demo_scene demo_scene H).
Defined.

Lemma emplace_loses_nothing_witness :
  NoDup (map fst demo_scene)
  /\ length (emplace_all [] demo_scene) = length demo_scene.
Proof.
  assert (H : NoDup (map fst demo_scene))
    by (repeat constructor; simpl; lia).
  split; [exact H|].
  apply (emplace_loses_nothing_iff_unique demo_scene). exact H.
Defined.

Lemma loadBushObjects_witness :
  unique_ids (S := demo_builder)
  /\ pointLight (blank (SceneExternals := demo_builder)) = None
  /\ well_keyed (S := demo_builder) (builder_init 0)
  /\ exists added,
       b_gameObjects
         (build (loadBushObjects (S := demo_builder)) (builder_init 0))
       = added
       /\ length added = 84%nat.
Proof.
  assert (H1 : unique_ids (S := demo_builder))
    by (intros m n H; simpl in H; lia).
  assert (H2 : pointLight (blank (SceneExternals := demo_builder)) = None)
    by reflexivity.
  assert (H3 : well_keyed (S := demo_builder) (builder_init 0))
    by (split; [constructor | intros n _ []]).
  split; [exact H1|]. split; [exact H2|]. split; [exact H3|].
  destruct (loadBushObjects_appends_84 H1 H2 H3) as (a & E & L & _).
  exists a. split; [exact E | exact L].
Defined.

Lemma loadPlantObjects_witness :
  unique_ids (S := demo_builder)
  /\ pointLight (blank (SceneExternals := demo_builder)) = None
  /\ well_keyed (S := demo_builder) (builder_init 0)
  /\ 0 <= rand_seq (SceneExternals := demo_builder) 0
  /\ 8 <= numPlants_of 13 <= 15
  /\ b_rand (build (loadPlantObjects (S := demo_builder)) (builder_init 0))
     = 40%nat.
Proof.
  assert (H1 : unique_ids (S := demo_builder))
    by (intros m n H; simpl in H; lia).
  assert (H2 : pointLight (blank (SceneExternals := demo_builder)) = None)
    by reflexivity.
  assert (H3 : well_keyed (S := demo_builder) (builder_init 0))
    by (split; [constructor | intros n _ []]).
  assert (H4 : 0 <= rand_seq (SceneExternals := demo_builder) 0)
    by (simpl; lia).
  split; [exact H1|]. split; [exact H2|]. split; [exact H3|].
  split; [exact H4|].
  destruct (loadPlantObjects_between_8_and_15 H1 H2 H3 H4)
    as (Hn & _ & _ & Hr).
  split; [exact Hn | exact Hr].
Defined.

Lemma loadTreeObjects2_witness :
  unique_ids (S := demo_builder)
  /\ well_keyed (S := demo_builder) (builder_init 0)
  /\ ~ In 0 (map fst (b_gameObjects
                        (build (loadTreeObjects2 (S := demo_builder))
                               (builder_init 0)))).
Proof.
  assert (H1 : unique_ids (S := demo_builder))
    by (intros m n H; simpl in H; lia).
  assert (H3 : well_keyed (S := demo_builder) (builder_init 0))
    by (split; [constructor | intros n _ []]).
  split; [exact H1|]. split; [exact H3|].
  apply (loadTreeObjects2_registers_second_only H1 H3).
Defined.

Lemma FirstApp2_scene_witness :
  unique_ids (S := demo_builder)
  /\ pointLight (blank (SceneExternals := demo_builder)) = None
  /\ model (blank (SceneExternals := demo_builder)) = None
  /\ 0 <= rand_seq (SceneExternals := demo_builder) 0
  /\ Z.of_nat (length (b_gameObjects
                         (build (FirstApp2 (S := demo_builder))
                                (builder_init 0))))
     = 89 + numPlants_of 13.
Proof.
  assert (H1 : unique_ids (S := demo_builder))
    by (intros m n H; simpl in H; lia).
  assert (H2 : pointLight (blank (SceneExternals := demo_builder)) = None)
    by reflexivity.
  assert (H3 : model (blank (SceneExternals := demo_builder)) = None)
    by reflexivity.
  assert (H4 : 0 <= rand_seq (SceneExternals := demo_builder) 0)
    by (simpl; lia).
  split; [exact H1|]. split; [exact H2|]. split; [exact H3|].
  split; [exact H4|].
  apply (FirstApp2_scene H1 H2 H3 0 H4).
Defined.

Lemma FirstApp1_scene_witness :
  unique_ids (S := demo_builder)
  /\ pointLight (blank (SceneExternals := demo_builder)) = None
  /\ model (blank (SceneExternals := demo_builder)) = None
  /\ length (b_gameObjects
               (build (FirstApp1 (S := demo_builder)) (builder_init 0)))
     = 4%nat.
Proof.
  assert (H1 : unique_ids (S := demo_builder))
    by (intros m n H; simpl in H; lia).
  assert (H2 : pointLight (blank (SceneExternals := demo_builder)) = None)
    by reflexivity.
  assert (H3 : model (blank (SceneExternals := demo_builder)) = None)
    by reflexivity.
  split; [exact H1|]. split; [exact H2|]. split; [exact H3|].
  apply (FirstApp1_scene H1 H2 H3 0).
Defined.

Lemma constructed_scene_witness :
  unique_ids (S := demo_builder)
  /\ pointLight (blank (SceneExternals := demo_builder)) = None
  /\ model (blank (SceneExternals := demo_builder)) = None
  /\ (1 <= MAX_LIGHTS (Externals := demo))%nat
  /\ Forall (fun ku => numLights (snd ku) = 1)
            (uploads
               (trace
                  (run (X := demo)
                     (b_gameObjects
                        (build (FirstApp1 (S := demo_builder))
                               (builder_init 0)))
                     renderer_init 0 demo_inputs))).
Proof.
  assert (H1 : unique_ids (S := demo_builder))
    by (intros m n H; simpl in H; lia).
  assert (H2 : pointLight (blank (SceneExternals := demo_builder)) = None)
    by reflexivity.
  assert (H3 : model (blank (SceneExternals := demo_builder)) = None)
    by reflexivity.
  assert (H4 : (1 <= MAX_LIGHTS (Externals := demo))%nat) by (simpl; lia).
  split; [exact H1|]. split; [exact H2|]. split; [exact H3|].
  split; [exact H4|].
  apply (Forall_impl _ (fun ku Hk => proj2 Hk)
           (proj1 (constructed_scene_uploads_one_light (X := demo) H1 H2 H3
                     0 renderer_init 0 demo_inputs H4))).
Defined.
